(** * Naturally-SQL: the translation / execution / repair pipeline of [app.js]

    A shallow embedding of the parts of [src/app.js] that drive the
    natural-language query pipeline ([executeNLQuery], [callLLM],
    [cleanLLMResponse], [getSchemaForLLM], [getExplanation], [runSQL],
    [copySQLToEditor], [escapeHtml]) together with the properties stated about
    them.

    Conventions.
    - A JavaScript string is the list of its UTF-16 code units ([jsstring]).
    - The SQL engine (sql.js) and the network ([fetch]) are external: they are
      parameters of the model, a transition function on an abstract state.
    - Code that can throw lives in a small state-and-exception monad [M]. *)

From Stdlib Require Import List NArith ZArith Ascii Bool Lia Arith.
From Stdlib Require String DecimalString.
Import String.StringSyntax.
Delimit Scope string_scope with string.
Import ListNotations.

(** ** JavaScript strings *)

Module JS.

Definition jsstring := list N.

(** A literal of the source, as code units (the literals used are ASCII). *)
Definition js (s : String.string) : jsstring :=
  map N_of_ascii (String.list_ascii_of_string s).
Arguments js s%_string.

Fixpoint str_eqb (a b : jsstring) : bool :=
  match a, b with
  | [], [] => true
  | x :: a', y :: b' => N.eqb x y && str_eqb a' b'
  | _, _ => false
  end.

(** [s.startsWith(p)] *)
Fixpoint starts_with (p s : jsstring) : bool :=
  match p, s with
  | [], _ => true
  | x :: p', y :: s' => N.eqb x y && starts_with p' s'
  | _ :: _, [] => false
  end.

(** Removes the prefix [p] from [s] when it is there. *)
Fixpoint strip (p s : jsstring) : option jsstring :=
  match p, s with
  | [], _ => Some s
  | x :: p', y :: s' => if N.eqb x y then strip p' s' else None
  | _ :: _, [] => None
  end.

(** The class [\s] of a regular expression, which is also what
    [String.prototype.trim] removes: WhiteSpace and LineTerminator. *)
Definition is_space (c : N) : bool :=
  ((9 <=? c) && (c <=? 13) || (c =? 32) || (c =? 160) || (c =? 5760)
   || ((8192 <=? c) && (c <=? 8202)) || (c =? 8232) || (c =? 8233)
   || (c =? 8239) || (c =? 8287) || (c =? 12288) || (c =? 65279))%N.

Fixpoint trim_start (s : jsstring) : jsstring :=
  match s with
  | c :: s' => if is_space c then trim_start s' else s
  | [] => []
  end.

Definition trim_end (s : jsstring) : jsstring := rev (trim_start (rev s)).

(** [s.trim()] *)
Definition trim (s : jsstring) : jsstring := trim_end (trim_start s).

(** [parts.join(sep)] on strings. *)
Fixpoint join (sep : jsstring) (parts : list jsstring) : jsstring :=
  match parts with
  | [] => []
  | [p] => p
  | p :: ps => p ++ sep ++ join sep ps
  end.

(** [xs.slice(0, n)] *)
Definition slice0 {A} (n : nat) (xs : list A) : list A := firstn n xs.

Definition nl : jsstring := [10%N].

(** [s] occurs in [t] as a substring. *)
Definition substring_of (s t : jsstring) : Prop :=
  exists pre post, t = pre ++ s ++ post.

End JS.
Import JS.

(** ** [cleanLLMResponse]

    The regular expression
    [/```(?:sql|SQL)?\s*\n?([\s\S]*?)\n?```/g] is written out as the
    backtracking search a JavaScript engine performs: every quantifier tries
    its alternatives in priority order (greedy: longest first, lazy: shortest
    first) and the first complete match wins. Each function below is the
    matcher of the suffix of the pattern named in its comment and returns
    capture group 1 of the first successful path. *)

Module Clean.

Definition fence : jsstring := js "```".

(** No code unit of [s] is a backtick. *)
Definition no_tick (s : jsstring) : bool :=
  forallb (fun c => negb (c =? 96)%N) s.

Definition orelse {A} (x y : option A) : option A :=
  match x with Some _ => x | None => y end.

(** [\n?```] at the head of [s] (the optional newline is tried first). *)
Definition closes (s : jsstring) : bool :=
  match s with
  | c :: s' => ((c =? 10)%N && starts_with fence s') || starts_with fence s
  | [] => false
  end.

(** [([\s\S]*?)\n?```]: the lazy group grows one code unit at a time;
    [acc] is the group so far, reversed. *)
Fixpoint lazy_group (acc s : jsstring) : option jsstring :=
  if closes s then Some (rev acc)
  else match s with
       | [] => None
       | c :: s' => lazy_group (c :: acc) s'
       end.

(** [\n?([\s\S]*?)\n?```] *)
Definition opt_newline (s : jsstring) : option jsstring :=
  orelse (match s with
          | c :: s' => if (c =? 10)%N then lazy_group [] s' else None
          | [] => None
          end)
         (lazy_group [] s).

(** [\s*\n?([\s\S]*?)\n?```]: greedy, gives back one code unit at a time. *)
Fixpoint spaces (s : jsstring) : option jsstring :=
  match s with
  | c :: s' => if is_space c then orelse (spaces s') (opt_newline s)
               else opt_newline s
  | [] => opt_newline s
  end.

(** [(?:sql|SQL)?\s*\n?([\s\S]*?)\n?```] *)
Definition opt_tag (s : jsstring) : option jsstring :=
  orelse (match strip (js "sql") s with Some s' => spaces s' | None => None end)
 (orelse (match strip (js "SQL") s with Some s' => spaces s' | None => None end)
         (spaces s)).

(** The whole pattern, anchored at the head of [s]. *)
Definition match_here (s : jsstring) : option jsstring :=
  match strip fence s with
  | Some s' => opt_tag s'
  | None => None
  end.

(** [codeblockRegex.exec(response)] with [lastIndex = 0]: the leftmost start
    position that matches; the result is [match[1]]. *)
Fixpoint regex_exec (s : jsstring) : option jsstring :=
  orelse (match_here s)
         (match s with [] => None | _ :: s' => regex_exec s' end).

(** [cleanLLMResponse(response)] on a string. For the empty string
    [!response] holds and the response is returned as it is. *)
Definition cleanLLMResponse (response : jsstring) : jsstring :=
  match response with
  | [] => response
  | _ =>
    match regex_exec response with
    | Some group1 => trim group1
    | None => trim response
    end
  end.

(** *** The response cleaning as the specification words it

    "If the raw text contains a fenced code block (optionally tagged as SQL),
    return only the content of the first fenced block, trimmed; otherwise
    return the trimmed raw text." *)

(** Splits [s] at the first occurrence of the fence: the text before it and
    the text after it. *)
Fixpoint find_fence (s : jsstring) : option (jsstring * jsstring) :=
  match strip fence s with
  | Some rest => Some ([], rest)
  | None =>
    match s with
    | [] => None
    | c :: s' =>
      match find_fence s' with
      | Some (before, rest) => Some (c :: before, rest)
      | None => None
      end
    end
  end.

Definition strip_tag (s : jsstring) : jsstring :=
  match strip (js "sql") s with
  | Some s' => s'
  | None => match strip (js "SQL") s with Some s' => s' | None => s end
  end.

(** The content of the first fenced block of [s], when [s] has one. *)
Definition first_block (s : jsstring) : option jsstring :=
  match find_fence s with
  | Some (_, after_open) =>
    match find_fence (strip_tag after_open) with
    | Some (content, _) => Some content
    | None => None
    end
  | None => None
  end.

Definition clean_spec (s : jsstring) : jsstring :=
  match first_block s with
  | Some content => trim content
  | None => trim s
  end.

(** The result [r] of a matcher run on [s] agrees with the text up to the
    first fence of [s]: both absent, or equal after trimming. *)
Definition agrees (r : option jsstring) (s : jsstring) : Prop :=
  match find_fence s with
  | None => r = None
  | Some (before, _) => exists g, r = Some g /\ trim g = trim before
  end.

End Clean.

(** ** Values, the SQL engine and the network

    The cells sql.js hands back are JavaScript numbers, strings, [null] and
    byte arrays; [VUndefined] is what indexing or destructuring a row past
    its end gives. Numbers are doubles: their type and their conversions are
    left to the platform. *)

Module Data.

Inductive value (Num : Type) : Type :=
| VUndefined
| VNull
| VNum (n : Num)
| VStr (s : jsstring)
| VBlob (bytes : list N).
Arguments VUndefined {Num}.
Arguments VNull {Num}.
Arguments VNum {Num} n.
Arguments VStr {Num} s.
Arguments VBlob {Num} bytes.

(** One entry of the array [db.exec] returns. *)
Record QueryResult (Num : Type) : Type := mkResult {
  columns : list jsstring;
  values : list (list (value Num))
}.
Arguments mkResult {Num} columns values.
Arguments columns {Num} q.
Arguments values {Num} q.

(** [db.exec(sql)] returns its results or throws an error with a message. *)
Inductive ExecOutcome (Num : Type) : Type :=
| ExecError (message : jsstring)
| ExecOk (results : list (QueryResult Num)).
Arguments ExecError {Num} message.
Arguments ExecOk {Num} results.

(** The JSON body of a request: the chat shape of OpenAI and Groq, or the
    [contents] shape of Gemini (the constant sampling fields are left out). *)
Inductive Body : Type :=
| ChatBody (model system user : jsstring)
| GeminiBody (text : jsstring).

Record Request : Type := mkRequest {
  endpoint : jsstring;
  authorization : option jsstring;
  body : Body
}.

(** What reading the completion out of [await response.json()] gives: the
    text at the path the provider's branch reads, or the error thrown when
    the body is not JSON or the path is missing. *)
Inductive Envelope : Type :=
| Malformed (message : jsstring)
| Completion (text : jsstring).

Inductive FetchOutcome : Type :=
| Rejected (message : jsstring)
| Response (ok : bool) (statusText : jsstring) (data : Envelope).

Class Platform : Type := {
  Num : Type;
  num_to_string : Num -> jsstring;
  num_truthy : Num -> bool;
  DB : Type;
  db_exec : DB -> jsstring -> DB * ExecOutcome Num;
  Net : Type;
  net_fetch : Net -> Request -> Net * FetchOutcome
}.

End Data.
Export Data.

(** ** The application *)

Module App.

(** A computation either returns a value or throws an error, of which the
    code only ever reads the message. *)
Inductive Outcome (A : Type) : Type :=
| Throw (message : jsstring)
| Return (x : A).
Arguments Throw {A} message.
Arguments Return {A} x.

(** [this.settings] *)
Record Settings : Type := mkSettings {
  provider : jsstring;
  apiKey : jsstring;
  model_openai : jsstring;
  model_gemini : jsstring;
  model_groq : jsstring;
  customEndpoint : jsstring
}.

(** A call that leaves the application: [fetch] or [db.exec]. *)
Inductive Event : Type :=
| EvFetch (request : Request)
| EvExec (sql : jsstring).

(** The types below depend on the platform only through its types of
    numbers, of engine states and of network states. *)
Section Types.
Variables Num DB Net : Type.

(** The pieces of markup the application writes into a results element, one
    constructor per template of the source. *)
Inductive FragmentOf : Type :=
| Spinner
| GeneratedSQLCard (sql : jsstring)
| FixedSQLCard (sql : jsstring)
| ResultsTable (result : Data.QueryResult Num)
| AnswerCard (explanation : jsstring)
| AlertWarning (text : jsstring)
| AlertError (text : jsstring)
| AlertSuccess (text : jsstring)
| StatementHeading (index : nat).

(** The fields of [NL2SQLApp] and of the page that the pipeline reads or
    writes. [html] is the local variable of [executeNLQuery]; [trace] records
    every network call and every engine call, oldest first. *)
Record StateOf : Type := mkState {
  db : option DB;
  settings : Settings;
  queryHistory : list jsstring;
  net : Net;
  nlInput : jsstring;
  sqlEditor : jsstring;
  nlResults : list FragmentOf;
  sqlResults : list FragmentOf;
  alerts : list (jsstring * jsstring);
  settingsModal : bool;
  html : list FragmentOf;
  trace : list Event
}.

Definition set_db d (a : StateOf) :=
  mkState d a.(settings) a.(queryHistory) a.(net) a.(nlInput) a.(sqlEditor)
          a.(nlResults) a.(sqlResults) a.(alerts) a.(settingsModal) a.(html) a.(trace).
Definition set_queryHistory h (a : StateOf) :=
  mkState a.(db) a.(settings) h a.(net) a.(nlInput) a.(sqlEditor)
          a.(nlResults) a.(sqlResults) a.(alerts) a.(settingsModal) a.(html) a.(trace).
Definition set_net n (a : StateOf) :=
  mkState a.(db) a.(settings) a.(queryHistory) n a.(nlInput) a.(sqlEditor)
          a.(nlResults) a.(sqlResults) a.(alerts) a.(settingsModal) a.(html) a.(trace).
Definition set_nlResults r (a : StateOf) :=
  mkState a.(db) a.(settings) a.(queryHistory) a.(net) a.(nlInput) a.(sqlEditor)
          r a.(sqlResults) a.(alerts) a.(settingsModal) a.(html) a.(trace).
Definition set_sqlResults r (a : StateOf) :=
  mkState a.(db) a.(settings) a.(queryHistory) a.(net) a.(nlInput) a.(sqlEditor)
          a.(nlResults) r a.(alerts) a.(settingsModal) a.(html) a.(trace).
Definition set_alerts l (a : StateOf) :=
  mkState a.(db) a.(settings) a.(queryHistory) a.(net) a.(nlInput) a.(sqlEditor)
          a.(nlResults) a.(sqlResults) l a.(settingsModal) a.(html) a.(trace).
Definition set_settingsModal b (a : StateOf) :=
  mkState a.(db) a.(settings) a.(queryHistory) a.(net) a.(nlInput) a.(sqlEditor)
          a.(nlResults) a.(sqlResults) a.(alerts) b a.(html) a.(trace).
Definition set_html h (a : StateOf) :=
  mkState a.(db) a.(settings) a.(queryHistory) a.(net) a.(nlInput) a.(sqlEditor)
          a.(nlResults) a.(sqlResults) a.(alerts) a.(settingsModal) h a.(trace).
Definition set_trace t (a : StateOf) :=
  mkState a.(db) a.(settings) a.(queryHistory) a.(net) a.(nlInput) a.(sqlEditor)
          a.(nlResults) a.(sqlResults) a.(alerts) a.(settingsModal) a.(html) t.

(** One entry of [allResults] in [runSQL]. *)
Record StatementResultOf : Type := mkStatementResult {
  statement : jsstring;
  result : Data.QueryResult Num;
  index : nat
}.

End Types.
Arguments set_db {Num DB Net}.
Arguments set_queryHistory {Num DB Net}.
Arguments set_net {Num DB Net}.
Arguments set_nlResults {Num DB Net}.
Arguments set_sqlResults {Num DB Net}.
Arguments set_alerts {Num DB Net}.
Arguments set_settingsModal {Num DB Net}.
Arguments set_html {Num DB Net}.
Arguments set_trace {Num DB Net}.
Arguments Spinner {Num}.
Arguments GeneratedSQLCard {Num}.
Arguments FixedSQLCard {Num}.
Arguments ResultsTable {Num}.
Arguments AnswerCard {Num}.
Arguments AlertWarning {Num}.
Arguments AlertError {Num}.
Arguments AlertSuccess {Num}.
Arguments StatementHeading {Num}.
Arguments mkState {Num DB Net}.
Arguments db {Num DB Net}.
Arguments settings {Num DB Net}.
Arguments queryHistory {Num DB Net}.
Arguments net {Num DB Net}.
Arguments nlInput {Num DB Net}.
Arguments sqlEditor {Num DB Net}.
Arguments nlResults {Num DB Net}.
Arguments sqlResults {Num DB Net}.
Arguments alerts {Num DB Net}.
Arguments settingsModal {Num DB Net}.
Arguments html {Num DB Net}.
Arguments trace {Num DB Net}.
Arguments statement {Num}.
Arguments result {Num}.
Arguments index {Num}.
Arguments mkStatementResult {Num}.

Section WithPlatform.
Context {P : Platform}.

Local Abbreviation value := (Data.value Num).
Local Abbreviation QueryResult := (Data.QueryResult Num).

(** The same types, at the types of the platform. *)
Definition Fragment : Type := FragmentOf Num.
Definition StatementResult : Type := StatementResultOf Num.
Definition State : Type := StateOf Num DB Net.

Definition N_to_dec (n : N) : jsstring :=
  js (DecimalString.NilZero.string_of_uint (N.to_uint n)).

(** [String(v)], also the conversion inside a template literal. *)
Definition to_string (v : value) : jsstring :=
  match v with
  | VUndefined => js "undefined"
  | VNull => js "null"
  | VNum n => num_to_string n
  | VStr s => s
  | VBlob bytes => join (js ",") (map N_to_dec bytes)
  end.

(** The conversion [Array.prototype.join] applies to an element. *)
Definition join_item (v : value) : jsstring :=
  match v with
  | VUndefined | VNull => []
  | _ => to_string v
  end.

(** [row.join(sep)] on a row of cells. *)
Definition join_values (sep : jsstring) (row : list value) : jsstring :=
  join sep (map join_item row).

(** [v ? ... : ...] *)
Definition truthy (v : value) : bool :=
  match v with
  | VUndefined | VNull => false
  | VNum n => num_truthy n
  | VStr s => match s with [] => false | _ => true end
  | VBlob _ => true
  end.

(** [row[i]] *)
Definition item (i : nat) (row : list value) : value := nth i row VUndefined.

(** *** State and exceptions

    A computation runs on the application state and ends in an [Outcome]. *)

Definition M (A : Type) : Type := State -> State * Outcome A.

Definition ret {A} (x : A) : M A := fun a => (a, Return x).
Definition throw {A} (message : jsstring) : M A := fun a => (a, Throw message).
Definition bind {A B} (m : M A) (k : A -> M B) : M B :=
  fun a => match m a with
           | (a', Return x) => k x a'
           | (a', Throw e) => (a', Throw e)
           end.
(** [try { m } catch (error) { handler(error.message) }] *)
Definition try_catch {A} (m : M A) (handler : jsstring -> M A) : M A :=
  fun a => match m a with
           | (a', Return x) => (a', Return x)
           | (a', Throw e) => handler e a'
           end.
Definition get : M State := fun a => (a, Return a).
Definition modify (f : State -> State) : M unit := fun a => (f a, Return tt).

Declare Scope js_scope.
Delimit Scope js_scope with js.
Notation "x <- c1 ;; c2" := (bind c1 (fun x => c2))
  (at level 61, c1 at next level, right associativity) : js_scope.
Notation "c1 ;; c2" := (bind c1 (fun _ => c2))
  (at level 61, right associativity) : js_scope.
Local Open Scope js_scope.

Definition log (e : Event) : M unit :=
  modify (fun a => set_trace (a.(trace) ++ [e]) a).

(** [this.db.exec(sql)]; every caller has checked [this.db] before. *)
Definition exec (sql : jsstring) : M (list QueryResult) :=
  fun a =>
    match a.(db) with
    | None => (a, Throw (js "Cannot read properties of null"))
    | Some d =>
      let (d', out) := db_exec d sql in
      let a' := set_trace (a.(trace) ++ [EvExec sql]) (set_db (Some d') a) in
      match out with
      | ExecError message => (a', Throw message)
      | ExecOk results => (a', Return results)
      end
    end.

(** [await fetch(endpoint, {...})]: the response, or the rejection. *)
Definition fetch (r : Request) : M (bool * jsstring * Envelope) :=
  fun a =>
    let (n', out) := net_fetch a.(net) r in
    let a' := set_trace (a.(trace) ++ [EvFetch r]) (set_net n' a) in
    match out with
    | Rejected message => (a', Throw message)
    | Response ok statusText data => (a', Return (ok, statusText, data))
    end.

(** [showAlert(message, type)] *)
Definition showAlert (message type : jsstring) : M unit :=
  modify (fun a => set_alerts (a.(alerts) ++ [(message, type)]) a).

Definition openSettingsModal : M unit := modify (set_settingsModal true).

(** [a || b] on strings *)
Definition or_default (a b : jsstring) : jsstring :=
  match a with [] => b | _ => a end.

Definition is_empty (s : jsstring) : bool :=
  match s with [] => true | _ => false end.

Definition dquote : jsstring := [34%N].

(** *** [callLLM] *)

Definition system_prompt : jsstring :=
  js "You are a SQL expert. Respond only with SQL queries or brief explanations as requested.".

(** [const data = await response.json(); return this.cleanLLMResponse(<path>)] *)
Definition read_completion (data : Envelope) : M jsstring :=
  match data with
  | Malformed message => throw message
  | Completion text => ret (Clean.cleanLLMResponse text)
  end.

Definition openai_request (st : Settings) (prompt : jsstring) : Request :=
  {| endpoint := or_default st.(customEndpoint)
                   (js "https://api.openai.com/v1/chat/completions");
     authorization := Some (js "Bearer " ++ st.(apiKey));
     body := ChatBody st.(model_openai) system_prompt prompt |}.

Definition gemini_request (st : Settings) (prompt : jsstring) : Request :=
  {| endpoint := or_default st.(customEndpoint)
                   (js "https://generativelanguage.googleapis.com/v1beta/models/"
                    ++ st.(model_gemini) ++ js ":generateContent?key=" ++ st.(apiKey));
     authorization := None;
     body := GeminiBody prompt |}.

Definition groq_request (st : Settings) (prompt : jsstring) : Request :=
  {| endpoint := or_default st.(customEndpoint)
                   (js "https://api.groq.com/openai/v1/chat/completions");
     authorization := Some (js "Bearer " ++ st.(apiKey));
     body := ChatBody st.(model_groq) system_prompt prompt |}.

(** One branch of [callLLM]: the request, the status check, the completion. *)
Definition call_provider (label : jsstring) (r : Request) : M jsstring :=
  response <- fetch r ;;
  let '(ok, statusText, data) := response in
  if negb ok then throw (label ++ js " API error: " ++ statusText)
  else read_completion data.

Definition callLLM (prompt : jsstring) : M jsstring :=
  a <- get ;;
  let st := a.(settings) in
  if str_eqb st.(provider) (js "openai") then
    call_provider (js "OpenAI") (openai_request st prompt)
  else if str_eqb st.(provider) (js "gemini") then
    call_provider (js "Gemini") (gemini_request st prompt)
  else if str_eqb st.(provider) (js "groq") then
    call_provider (js "Groq") (groq_request st prompt)
  else throw (js "Unknown LLM provider").

(** *** The three prompts *)

Definition generate_prompt (naturalQuery schema : jsstring) : jsstring :=
  js "Given the following database schema:" ++ nl ++ nl
  ++ schema ++ nl ++ nl
  ++ js "Generate a SQL query for this request: " ++ dquote ++ naturalQuery ++ dquote
  ++ nl ++ nl
  ++ js "Return ONLY the SQL query, no explanations or markdown.".

Definition generateSQL (naturalQuery schema : jsstring) : M jsstring :=
  callLLM (generate_prompt naturalQuery schema).

Definition fix_header : jsstring :=
  js "The following SQL query failed with an error:".

Definition fix_prompt (sqlQuery errorMessage schema : jsstring) : jsstring :=
  fix_header ++ nl ++ nl
  ++ js "SQL Query:" ++ nl ++ sqlQuery ++ nl ++ nl
  ++ js "Error:" ++ nl ++ errorMessage ++ nl ++ nl
  ++ js "Database Schema:" ++ nl ++ schema ++ nl ++ nl
  ++ js "Please fix the SQL query. Return ONLY the corrected SQL, no explanations.".

Definition fixSQL (sqlQuery errorMessage schema : jsstring) : M jsstring :=
  callLLM (fix_prompt sqlQuery errorMessage schema).

(** [results.values.slice(0, 5).map(row => row.join(', ')).join('\n')] *)
Definition resultsPreview (results : QueryResult) : jsstring :=
  join nl (map (join_values (js ", ")) (slice0 5 results.(values))).

Definition explain_prompt (question sqlQuery : jsstring) (results : QueryResult)
  : jsstring :=
  js "Given this question: " ++ dquote ++ question ++ dquote ++ nl ++ nl
  ++ js "And this SQL query: " ++ sqlQuery ++ nl ++ nl
  ++ js "Which returned these results (first 5 rows):" ++ nl
  ++ join (js ", ") results.(columns) ++ nl
  ++ resultsPreview results ++ nl ++ nl
  ++ js "Provide a brief, natural language answer to the original question based on the results. Be concise and direct.".

Definition getExplanation (question sqlQuery : jsstring) (results : QueryResult)
  : M jsstring :=
  callLLM (explain_prompt question sqlQuery results).

(** *** [getSchemaForLLM] *)

(** [`  - ${name} (${type})${pk ? ' PRIMARY KEY' : ''}${notnull ? ' NOT NULL' : ''}\n`]
    with [[cid, name, type, notnull, dflt_value, pk] = col] *)
Definition column_line (col : list value) : jsstring :=
  js "  - " ++ to_string (item 1 col) ++ js " (" ++ to_string (item 2 col) ++ js ")"
  ++ (if truthy (item 5 col) then js " PRIMARY KEY" else [])
  ++ (if truthy (item 3 col) then js " NOT NULL" else [])
  ++ nl.

(** [`  - ${fk[3]} -> ${fk[2]}.${fk[4]}\n`] *)
Definition fk_line (fk : list value) : jsstring :=
  js "  - " ++ to_string (item 3 fk) ++ js " -> " ++ to_string (item 2 fk)
  ++ js "." ++ to_string (item 4 fk) ++ nl.

Definition table_info_query (tableName : value) : jsstring :=
  js "PRAGMA table_info(" ++ to_string tableName ++ js ")".

Definition foreign_key_query (tableName : value) : jsstring :=
  js "PRAGMA foreign_key_list(" ++ to_string tableName ++ js ")".

(** What the [if (columns) { ... }] statement appends. *)
Definition columns_section (columns : option QueryResult) : jsstring :=
  match columns with
  | Some c => js "Columns:" ++ nl ++ concat (map column_line c.(values))
  | None => []
  end.

(** What the [if (fks && fks.values.length > 0) { ... }] statement appends. *)
Definition fks_section (fks : option QueryResult) : jsstring :=
  match fks with
  | Some f =>
    match f.(values) with
    | [] => []
    | _ => js "Foreign Keys:" ++ nl ++ concat (map fk_line f.(values))
    end
  | None => []
  end.

(** The body of [tables.values.forEach(([tableName]) => { ... })], over the
    rows still to visit; [schema] is the text so far. *)
Fixpoint schema_tables (rows : list (list value)) (schema : jsstring) : M jsstring :=
  match rows with
  | [] => ret schema
  | row :: rest =>
    let tableName := item 0 row in
    let schema := schema ++ (js "Table: " ++ to_string tableName ++ nl) in
    columns <- exec (table_info_query tableName) ;;
    let schema := schema ++ columns_section (hd_error columns) in
    fks <- exec (foreign_key_query tableName) ;;
    let schema := schema ++ fks_section (hd_error fks) in
    schema_tables rest (schema ++ nl)
  end.

Definition catalogue_query : jsstring :=
  js "SELECT name FROM sqlite_master WHERE type='table'".

Definition getSchemaForLLM : M jsstring :=
  a <- get ;;
  match a.(db) with
  | None => ret []
  | Some _ =>
    tables <- exec catalogue_query ;;
    match hd_error tables with
    | Some t => schema_tables t.(values) []
    | None => ret []
    end
  end.

(** *** [executeNLQuery] *)

(** [html += ...] *)
Definition append_html (fs : list Fragment) : M unit :=
  modify (fun a => set_html (a.(html) ++ fs) a).

(** [addToHistory(query)]: newest first, the last ten kept. *)
Definition addToHistory (query : jsstring) : M unit :=
  modify (fun a => set_queryHistory (slice0 10 (query :: a.(queryHistory))) a).

(** The inner [try { const fixedResults = this.db.exec(fixedSQL); ... }
    catch (fixError) { ... }] *)
Definition run_fixed (fixedSQL : jsstring) : M unit :=
  try_catch
    (fixedResults <- exec fixedSQL ;;
     match fixedResults with
     | r :: _ => append_html [ResultsTable r]
     | [] => ret tt
     end)
    (fun fixError =>
       append_html [AlertError (js "Fixed SQL also failed: " ++ fixError)]).

(** The handler [catch (sqlError) { ... }] *)
Definition on_sql_error (sqlQuery schema sqlError : jsstring) : M unit :=
  append_html [AlertError (js "SQL Error: " ++ sqlError);
               AlertWarning (js "Attempting to fix SQL...")] ;;
  fixedSQL <- fixSQL sqlQuery sqlError schema ;;
  if negb (is_empty fixedSQL) && negb (str_eqb fixedSQL sqlQuery) then
    append_html [FixedSQLCard fixedSQL] ;;
    run_fixed fixedSQL
  else ret tt.

(** The block [try { const results = this.db.exec(sqlQuery); ... }] that the
    handler above guards. *)
Definition run_generated (query sqlQuery : jsstring) : M unit :=
  results <- exec sqlQuery ;;
  match results with
  | result :: _ =>
    append_html [ResultsTable result] ;;
    explanation <- getExplanation query sqlQuery result ;;
    append_html [AnswerCard explanation]
  | [] => append_html [AlertWarning (js "Query returned no results")]
  end.

(** The outer [try] block, after the three entry checks. *)
Definition pipeline (query : jsstring) : M unit :=
  schema <- getSchemaForLLM ;;
  sqlQuery <- generateSQL query schema ;;
  modify (set_html [GeneratedSQLCard sqlQuery]) ;;
  try_catch (run_generated query sqlQuery) (on_sql_error sqlQuery schema) ;;
  a <- get ;;
  modify (set_nlResults a.(html)) ;;
  addToHistory query.

Definition executeNLQuery : M unit :=
  a <- get ;;
  let query := trim a.(nlInput) in
  if is_empty query then
    showAlert (js "Please enter a question") (js "warning")
  else
    match a.(db) with
    | None => showAlert (js "Please load a database first") (js "warning")
    | Some _ =>
      if is_empty a.(settings).(apiKey) then
        showAlert (js "Please configure your API key in settings") (js "warning") ;;
        openSettingsModal
      else
        modify (set_nlResults [Spinner]) ;;
        try_catch (pipeline query)
          (fun error => modify (set_nlResults [AlertError (js "Error: " ++ error)]))
    end.

(** *** [runSQL] *)

(** [s.split(sep)] for a separator of one code unit. *)
Fixpoint split_on (sep : N) (s : jsstring) : list jsstring :=
  match s with
  | [] => [[]]
  | c :: s' =>
    if (c =? sep)%N then [] :: split_on sep s'
    else match split_on sep s' with
         | part :: parts => (c :: part) :: parts
         | [] => [[c]]
         end
  end.

(** [statements.forEach((statement, index) => { ... })] from position
    [index] on. *)
Fixpoint run_statements (statements : list jsstring) (index : nat)
         (allResults : list StatementResult) : M (list StatementResult) :=
  match statements with
  | [] => ret allResults
  | statement :: rest =>
    if is_empty (trim statement) then run_statements rest (S index) allResults
    else
      results <- exec statement ;;
      match results with
      | r :: _ =>
        run_statements rest (S index)
          (allResults ++ [mkStatementResult statement r (index + 1)])
      | [] => run_statements rest (S index) allResults
      end
  end.

Definition render_all (allResults : list StatementResult) : list Fragment :=
  flat_map (fun e =>
              (if (1 <? length allResults)%nat then [StatementHeading e.(index)] else [])
              ++ [ResultsTable e.(result)])
           allResults.

Definition no_results_message : jsstring :=
  js "Query executed successfully (no results to display)".

Definition statements_of (sql : jsstring) : list jsstring :=
  filter (fun s => negb (is_empty (trim s))) (split_on 59 sql).

Definition runSQL : M unit :=
  a <- get ;;
  let sql := trim a.(sqlEditor) in
  if is_empty sql then showAlert (js "Please enter a SQL query") (js "warning")
  else
    match a.(db) with
    | None => showAlert (js "Please load a database first") (js "warning")
    | Some _ =>
      modify (set_sqlResults []) ;;
      try_catch
        (allResults <- run_statements (statements_of sql) 0 [] ;;
         match allResults with
         | [] => modify (set_sqlResults [AlertSuccess no_results_message])
         | _ => modify (set_sqlResults (render_all allResults))
         end)
        (fun error => modify (set_sqlResults [AlertError (js "SQL Error: " ++ error)]))
    end.

End WithPlatform.

(** *** [escapeHtml] and [copySQLToEditor] *)

(** [escapeHtml(text)] stores [text] in a text node and reads the markup of
    its parent back. The serialisation of a text node (HTML Standard,
    "escaping a string", outside attribute mode) replaces the ampersand, the
    no-break space U+00A0, the less-than and the greater-than sign. *)
Definition escape_unit (c : N) : jsstring :=
  if (c =? 38)%N then js "&amp;"
  else if (c =? 160)%N then js "&nbsp;"
  else if (c =? 60)%N then js "&lt;"
  else if (c =? 62)%N then js "&gt;"
  else [c].

Definition escapeHtml (text : jsstring) : jsstring := flat_map escape_unit text.

(** [s.replace(/pat/g, rep)] for a literal, non-empty [pat]: matches are
    taken left to right and do not overlap; [skip] counts the code units of
    the current match still to pass over. *)
Fixpoint replace_from (pat rep s : jsstring) (skip : nat) : jsstring :=
  match s with
  | [] => []
  | c :: s' =>
    match skip with
    | S k => replace_from pat rep s' k
    | O =>
      if starts_with pat s then rep ++ replace_from pat rep s' (length pat - 1)
      else c :: replace_from pat rep s' 0
    end
  end.

Definition replace_all (pat rep s : jsstring) : jsstring := replace_from pat rep s 0.

(** [escape_unit] with some of its entities switched off: the text after
    each step of [unescape], for a string without no-break space. *)
Definition escape_some (amp lt gt : bool) (c : N) : jsstring :=
  if (c =? 38)%N then (if amp then js "&amp;" else [c])
  else if (c =? 60)%N then (if lt then js "&lt;" else [c])
  else if (c =? 62)%N then (if gt then js "&gt;" else [c])
  else [c].

(** The value [copySQLToEditor(sql)] puts into the editor. *)
Definition unescape (sql : jsstring) : jsstring :=
  replace_all (js "&amp;") (js "&")
    (replace_all (js "&gt;") (js ">")
       (replace_all (js "&lt;") (js "<")
          (replace_all (js "&quot;") dquote
             (replace_all (js "&#39;") (js "'") sql)))).

End App.

(** ** The button [Copy to Editor]

    [copySQLToEditor] has one caller: the [onclick] attribute of the button
    in the card of the generated statement,
    [onclick="app.copySQLToEditor('${this.escapeHtml(sqlQuery)}')"]. The card
    is assigned to [innerHTML], so the HTML parser reads the attribute, and
    a click runs its value as the source of the handler. *)

Module Button.
Import App.

(** The text of the attribute value in the markup of the card. *)
Definition onclick_markup (sqlQuery : jsstring) : jsstring :=
  js "app.copySQLToEditor('" ++ escapeHtml sqlQuery ++ js "')".

(** The character reference at the head of [s], among the four that the
    output of [escapeHtml] holds: the code unit it stands for and the number
    of code units after the ampersand. *)
Definition reference (s : jsstring) : option (N * nat) :=
  if starts_with (js "&amp;") s then Some (38%N, 4)
  else if starts_with (js "&nbsp;") s then Some (160%N, 5)
  else if starts_with (js "&lt;") s then Some (60%N, 3)
  else if starts_with (js "&gt;") s then Some (62%N, 3)
  else None.

(** A code unit that the parser takes into a double-quoted attribute value
    as it is: not the double quote, which ends the value, and neither NUL
    nor the carriage return, which the parser rewrites. *)
Definition survives_markup (c : N) : bool :=
  negb ((c =? 34) || (c =? 0) || (c =? 13))%N.

(** The value the HTML parser gives to a double-quoted attribute written as
    [s]: every character reference is replaced by its code unit, once, left
    to right; [skip] counts the code units of the current reference still to
    pass over. [None] when [s] is outside what is modelled: it holds a code
    unit that does not survive, or an ampersand that starts none of the four
    references. *)
Fixpoint attribute_from (s : jsstring) (skip : nat) : option jsstring :=
  match s with
  | [] => Some []
  | c :: s' =>
    match skip with
    | S k => attribute_from s' k
    | O =>
      if (c =? 38)%N then
        match reference s with
        | Some (u, n) => option_map (cons u) (attribute_from s' n)
        | None => None
        end
      else if survives_markup c then option_map (cons c) (attribute_from s' 0)
      else None
    end
  end.

Definition attribute_value (s : jsstring) : option jsstring := attribute_from s 0.

(** A code unit that does not stand for itself inside a string literal: the
    backslash, which starts an escape sequence, and the line terminators. *)
Definition escape_or_line_end (c : N) : bool :=
  ((c =? 92) || (c =? 10) || (c =? 13) || (c =? 8232) || (c =? 8233))%N.

(** The body of a single-quoted string literal whose opening apostrophe has
    been read, and the source after its closing apostrophe. [None] when the
    literal is not closed or its body does not stand for itself. *)
Fixpoint literal_body (s : jsstring) : option (jsstring * jsstring) :=
  match s with
  | [] => None
  | c :: s' =>
    if (c =? 39)%N then Some ([], s')
    else if escape_or_line_end c then None
    else match literal_body s' with
         | Some (body, rest) => Some (c :: body, rest)
         | None => None
         end
  end.

(** The argument [copySQLToEditor] is called with when the source of the
    handler is the call [app.copySQLToEditor('<body>')] and nothing else.
    [None] for any other source: a statement with an apostrophe in it, for
    one, ends the literal early and leaves a source that is another program
    or none. *)
Definition handler_argument (source : jsstring) : option jsstring :=
  match strip (js "app.copySQLToEditor('") source with
  | Some s =>
    match literal_body s with
    | Some (body, rest) => if str_eqb rest (js ")") then Some body else None
    | None => None
    end
  | None => None
  end.

(** A click on the button of the card that shows [sqlQuery]: the text
    [copySQLToEditor] hands to [sqlEditor.setValue]. *)
Definition click (sqlQuery : jsstring) : option jsstring :=
  match attribute_value (onclick_markup sqlQuery) with
  | Some source => option_map unescape (handler_argument source)
  | None => None
  end.

(** The statements the model of the button covers. *)
Definition stands_for_itself (s : jsstring) : bool :=
  forallb (fun c => survives_markup c && negb (c =? 39)%N && negb (escape_or_line_end c)) s.

End Button.

(** ** A small platform to run the model on

    Numbers are integers printed in decimal; the engine knows a handful of
    statements; the network answers from a script, one entry per call. *)

Module Toy.
Import App.

Definition z_to_string (z : Z) : jsstring :=
  js (DecimalString.NilZero.string_of_int (Z.to_int z)).

Definition users_columns : QueryResult Z :=
  mkResult (map js ["cid"; "name"; "type"; "notnull"; "dflt_value"; "pk"]%string)
    [ [VNum 0%Z; VStr (js "id"); VStr (js "INTEGER"); VNum 1%Z; VNull; VNum 1%Z];
      [VNum 1%Z; VStr (js "name"); VStr (js "TEXT"); VNum 0%Z; VNull; VNum 0%Z] ].

Definition orders_columns : QueryResult Z :=
  mkResult (map js ["cid"; "name"; "type"; "notnull"; "dflt_value"; "pk"]%string)
    [ [VNum 0%Z; VStr (js "id"); VStr (js "INTEGER"); VNum 0%Z; VNull; VNum 1%Z];
      [VNum 1%Z; VStr (js "user_id"); VStr (js "INTEGER"); VNum 1%Z; VNull; VNum 0%Z] ].

Definition orders_fks : QueryResult Z :=
  mkResult (map js ["id"; "seq"; "table"; "from"; "to"; "on_update"; "on_delete"; "match"]%string)
    [ [VNum 0%Z; VNum 0%Z; VStr (js "users"); VStr (js "user_id"); VStr (js "id");
       VStr (js "NO ACTION"); VStr (js "NO ACTION"); VStr (js "NONE")] ].

Definition one_row (n : Z) : QueryResult Z :=
  mkResult [z_to_string n] [[VNum n]].

(** The engine state is the list of table names of the catalogue. A
    statement that returns no row yields no result object, as in sql.js. *)
Definition toy_exec (d : list jsstring) (sql : jsstring) : list jsstring * ExecOutcome Z :=
  if str_eqb sql (js "SELECT name FROM sqlite_master WHERE type='table'") then
    (d, ExecOk (match d with
                | [] => []
                | _ => [mkResult [js "name"] (map (fun t => [VStr t]) d)]
                end))
  else if str_eqb sql (js "PRAGMA table_info(users)") then (d, ExecOk [users_columns])
  else if str_eqb sql (js "PRAGMA table_info(orders)") then (d, ExecOk [orders_columns])
  else if str_eqb sql (js "PRAGMA foreign_key_list(orders)") then (d, ExecOk [orders_fks])
  else if starts_with (js "PRAGMA ") sql then (d, ExecOk [])
  else if str_eqb (trim sql) (js "SELECT 1") then (d, ExecOk [one_row 1])
  else if str_eqb (trim sql) (js "SELECT 2") then (d, ExecOk [one_row 2])
  else if str_eqb (trim sql) (js "SELECT 1; SELECT 2;") then (d, ExecOk [one_row 1; one_row 2])
  else if str_eqb (trim sql) (js "SELECT id FROM users WHERE 0") then (d, ExecOk [])
  else if str_eqb (trim sql) (js "CREATE TABLE t(x)") then (d ++ [js "t"], ExecOk [])
  else if str_eqb (trim sql) (js "CREATE TABLE t(x);") then (d ++ [js "t"], ExecOk [])
  else if str_eqb (trim sql) (js "SELECT * FROM missing") then
    (d, ExecError (js "no such table: missing"))
  else (d, ExecError (js "syntax error")).

Definition toy_fetch (script : list FetchOutcome) (r : Request)
  : list FetchOutcome * FetchOutcome :=
  match script with
  | [] => ([], Rejected (js "Failed to fetch"))
  | o :: rest => (rest, o)
  end.

#[export] Instance toy : Platform := {|
  Num := Z;
  num_to_string := z_to_string;
  num_truthy := fun z => negb (Z.eqb z 0);
  DB := list jsstring;
  db_exec := toy_exec;
  Net := list FetchOutcome;
  net_fetch := toy_fetch
|}.

Definition toy_settings : Settings :=
  mkSettings (js "openai") (js "sk-test") (js "gpt-3.5-turbo") (js "gemini-pro")
             (js "mixtral-8x7b-32768") [].

(** A state with the database [tables], the question [question] typed in,
    the editor holding [editor] and the network script [script]. *)
Definition start (tables : list jsstring) (question editor : jsstring)
           (script : list FetchOutcome) : State :=
  mkState (Some tables) toy_settings [] script question editor [] [] [] false [] [].

Definition answer (text : String.string) : FetchOutcome :=
  Response true (js "OK") (Completion (js text)).
Arguments answer text%_string.


(** *** Scenarios *)

Definition missing : jsstring := js "SELECT * FROM missing".

Definition unavailable : FetchOutcome :=
  Response false (js "Service Unavailable") (Malformed []).

(** The model answers with a statement on a table that does not exist, and
    answers the repair request with the same statement, fenced. *)
Definition unchanged_repair : State :=
  start [js "users"] (js "list everything") []
        [answer "SELECT * FROM missing"; answer "```sql SELECT * FROM missing```"].

(** The same, the repair request answered with another statement. *)
Definition changed_repair : State :=
  start [js "users"] (js "list everything") []
        [answer "SELECT * FROM missing"; answer "SELECT 1"].

(** The generated statement returns a row; the provider then fails on the
    explain request and the network is down afterwards. *)
Definition explain_fails : State :=
  start [js "users"] (js "how many") [] [answer "SELECT 1"; unavailable].

(** The same, the provider answering again after the failed request. *)
Definition explain_fails_once : State :=
  start [js "users"] (js "how many") []
        [answer "SELECT 1"; unavailable; answer "SELECT 2"].

Definition blank_question : State :=
  start [js "users"] (js "   ") [] [answer "SELECT 1"].

Definition two_statements : State :=
  start [js "users"] [] (js "SELECT 1; SELECT 2;") [].

Definition create_only : State :=
  start [js "users"] [] (js "CREATE TABLE t(x);") [].

Definition two_tables : State := start [js "users"; js "orders"] [] [] [].

(** A catalogue with a table for which the column query returns no row. *)
Definition bare_table : State := start [js "t"] [] [] [].

End Toy.

(** ** The schema snapshot and its rendering, as the specification words them

    "One block per table: header line [Table: <name>], then a [Columns:]
    section listing [<name> (<type>)] annotated with [ PRIMARY KEY] and/or
    [ NOT NULL] when applicable, then (only if non-empty) a [Foreign Keys:]
    section listing [<column> -> <table>.<column>], followed by a blank
    line." *)

Module Spec.

Record ColumnDescriptor : Type := mkColumn {
  c_name : jsstring;
  c_type : jsstring;
  isPrimaryKey : bool;
  isRequired : bool
}.

Record ForeignKeyDescriptor : Type := mkForeignKey {
  fk_column : jsstring;
  fk_table : jsstring;
  fk_target : jsstring
}.

Record TableDescriptor : Type := mkTable {
  t_name : jsstring;
  t_columns : list ColumnDescriptor;
  t_foreignKeys : list ForeignKeyDescriptor
}.

Definition column_text (c : ColumnDescriptor) : jsstring :=
  js "  - " ++ c.(c_name) ++ js " (" ++ c.(c_type) ++ js ")"
  ++ (if c.(isPrimaryKey) then js " PRIMARY KEY" else [])
  ++ (if c.(isRequired) then js " NOT NULL" else [])
  ++ nl.

Definition foreign_key_text (f : ForeignKeyDescriptor) : jsstring :=
  js "  - " ++ f.(fk_column) ++ js " -> " ++ f.(fk_table) ++ js "." ++ f.(fk_target)
  ++ nl.

Definition table_text (t : TableDescriptor) : jsstring :=
  js "Table: " ++ t.(t_name) ++ nl
  ++ (js "Columns:" ++ nl ++ concat (map column_text t.(t_columns)))
  ++ match t.(t_foreignKeys) with
     | [] => []
     | _ => js "Foreign Keys:" ++ nl ++ concat (map foreign_key_text t.(t_foreignKeys))
     end
  ++ nl.

Definition toPromptText (snapshot : list TableDescriptor) : jsstring :=
  concat (map table_text snapshot).

End Spec.

(** ** Runs of the engine

    What the engine answers along a sequence of calls, each call starting
    from the state the previous one left. *)

Module Runs.
Import App.

(** What the engine answered about one table of the catalogue. *)
Record TableAnswerOf (Num : Type) : Type := mkAnswer {
  a_name : Data.value Num;
  a_columns : option (Data.QueryResult Num);
  a_fks : option (Data.QueryResult Num)
}.
Arguments mkAnswer {Num}.
Arguments a_name {Num}.
Arguments a_columns {Num}.
Arguments a_fks {Num}.

Section WithPlatform.
Context {P : Platform}.

Local Abbreviation value := (Data.value Num).
Local Abbreviation QueryResult := (Data.QueryResult Num).

(** What the engine answered about one table of the catalogue:
    [results[0]] of the column query and of the foreign-key query. *)
Definition TableAnswer : Type := TableAnswerOf Num.

(** [Introspect d rows answers d']: from state [d] the engine answers the
    two metadata queries of every row of the catalogue, in order, without
    raising, and ends in [d']. *)
Inductive Introspect : DB -> list (list value) -> list TableAnswer -> DB -> Prop :=
| Introspect_nil d : Introspect d [] [] d
| Introspect_cons d d1 d2 d3 row rows columns fks answers :
    db_exec d (table_info_query (item 0 row)) = (d1, ExecOk columns) ->
    db_exec d1 (foreign_key_query (item 0 row)) = (d2, ExecOk fks) ->
    Introspect d2 rows answers d3 ->
    Introspect d (row :: rows)
               (mkAnswer (item 0 row) (hd_error columns) (hd_error fks) :: answers) d3.

(** The block [getSchemaForLLM] writes for one table. *)
Definition block (t : TableAnswer) : jsstring :=
  js "Table: " ++ to_string t.(a_name) ++ nl
  ++ columns_section t.(a_columns)
  ++ fks_section t.(a_fks)
  ++ nl.

(** The descriptors of the specification, read off the engine's answers. *)
Definition describe_column (col : list value) : Spec.ColumnDescriptor :=
  Spec.mkColumn (to_string (item 1 col)) (to_string (item 2 col))
                (truthy (item 5 col)) (truthy (item 3 col)).

Definition describe_fk (fk : list value) : Spec.ForeignKeyDescriptor :=
  Spec.mkForeignKey (to_string (item 3 fk)) (to_string (item 2 fk))
                    (to_string (item 4 fk)).

Definition rows_of (r : option QueryResult) : list (list value) :=
  match r with Some q => q.(values) | None => [] end.

Definition describe (t : TableAnswer) : Spec.TableDescriptor :=
  Spec.mkTable (to_string t.(a_name))
               (map describe_column (rows_of t.(a_columns)))
               (map describe_fk (rows_of t.(a_fks))).

(** [Chain d statements outs d']: from [d] the engine executes the
    statements one after the other, none raising; [outs] holds what each
    call returned. *)
Inductive Chain : DB -> list jsstring -> list (list QueryResult) -> DB -> Prop :=
| Chain_nil d : Chain d [] [] d
| Chain_cons d d1 d2 statement statements results outs :
    db_exec d statement = (d1, ExecOk results) ->
    Chain d1 statements outs d2 ->
    Chain d (statement :: statements) (results :: outs) d2.

(** The statements that returned a result object, with the first such
    object and the 1-based position of the statement counted from [i]. *)
Fixpoint contributions (i : nat) (statements : list jsstring)
         (outs : list (list QueryResult)) : list StatementResult :=
  match statements, outs with
  | statement :: statements', results :: outs' =>
    match results with
    | r :: _ => mkStatementResult statement r (i + 1)
                  :: contributions (S i) statements' outs'
    | [] => contributions (S i) statements' outs'
    end
  | _, _ => []
  end.

Definition is_fetch (e : Event) : bool :=
  match e with EvFetch _ => true | EvExec _ => false end.

Definition is_exec (e : Event) : bool :=
  match e with EvFetch _ => false | EvExec _ => true end.

(** The text of the user message of a request. *)
Definition request_prompt (r : Request) : jsstring :=
  match r.(body) with
  | ChatBody _ _ user => user
  | GeminiBody text => text
  end.

(** A network call that asks for a repair: its prompt is the one [fixSQL]
    builds. *)
Definition is_repair_call (e : Event) : bool :=
  match e with
  | EvFetch r => starts_with fix_header (request_prompt r)
  | EvExec _ => false
  end.

Definition count (f : Event -> bool) (evs : list Event) : nat :=
  length (filter f evs).

(** The request [callLLM] sends for a prompt, with the name its error
    message uses; none when the provider is not one of the three. *)
Definition request_of (st : Settings) (prompt : jsstring) : option (jsstring * Request) :=
  if str_eqb st.(provider) (js "openai") then
    Some (js "OpenAI", openai_request st prompt)
  else if str_eqb st.(provider) (js "gemini") then
    Some (js "Gemini", gemini_request st prompt)
  else if str_eqb st.(provider) (js "groq") then
    Some (js "Groq", groq_request st prompt)
  else None.

(** What [callLLM] returns or throws on an answer of the network. *)
Definition completion_of (label : jsstring) (out : FetchOutcome) : Outcome jsstring :=
  match out with
  | Rejected message => Throw message
  | Response false statusText _ => Throw (label ++ js " API error: " ++ statusText)
  | Response true _ (Malformed message) => Throw message
  | Response true _ (Completion text) => Return (Clean.cleanLLMResponse text)
  end.

(** What [run_fixed] adds to the markup for an answer of the engine. *)
Definition report (out : ExecOutcome Num) : list Fragment :=
  match out with
  | ExecOk (r :: _) => [ResultsTable r]
  | ExecOk [] => []
  | ExecError message => [AlertError (js "Fixed SQL also failed: " ++ message)]
  end.

(** The markup [executeNLQuery] has built when it asks for a repair. *)
Definition repair_notice (sqlQuery message : jsstring) : list Fragment :=
  [GeneratedSQLCard sqlQuery;
   AlertError (js "SQL Error: " ++ message);
   AlertWarning (js "Attempting to fix SQL...")].

(** The test [fixedSQL && fixedSQL !== sqlQuery]. *)
Definition worth_running (fixedSQL sqlQuery : jsstring) : bool :=
  negb (is_empty fixedSQL) && negb (str_eqb fixedSQL sqlQuery).


(** What [runSQL] writes into its results element for the entries of
    [allResults]. *)
Definition shown (allResults : list StatementResult) : list Fragment :=
  match allResults with
  | [] => [AlertSuccess no_results_message]
  | _ => render_all allResults
  end.

(** An engine call that executes the statement [sql]. *)
Definition executes (sql : jsstring) (e : Event) : bool :=
  match e with
  | EvFetch _ => false
  | EvExec s => str_eqb s sql
  end.

(** [bounded m n k]: whatever the state, [m] appends to the trace at most
    [n] repair calls and at most [k] network calls, and touches the trace in
    no other way. *)

Definition bounded {A} (m : M A) (n k : nat) : Prop :=
  forall a a' o, m a = (a', o) ->
    exists evs, trace a' = trace a ++ evs
                /\ count is_repair_call evs <= n
                /\ count is_fetch evs <= k.

End WithPlatform.
End Runs.

(** ** Invariants of a computation *)

Module Logic.
Import App Runs.

Section WithPlatform.
Context {P : Platform}.

(** [hoare I m]: a run of [m] from a state where [I] holds ends in a state
    where [I] holds, whether it returns or throws. *)
Definition hoare {A} (I : State -> Prop) (m : M A) : Prop :=
  forall a a' o, I a -> m a = (a', o) -> I a'.

(** [I] survives an engine call: the new engine state and the logged call. *)
Definition stable_exec (I : State -> Prop) : Prop :=
  forall a d sql, I a -> I (set_trace (trace a ++ [EvExec sql]) (set_db (Some d) a)).

(** [I] survives a network call made by [callLLM]. *)
Definition stable_fetch (I : State -> Prop) : Prop :=
  forall a label r n prompt,
    I a -> request_of (settings a) prompt = Some (label, r) ->
    I (set_trace (trace a ++ [EvFetch r]) (set_net n a)).

(** [I] survives [html += ...] for markup without spinner. *)
Definition stable_append (I : State -> Prop) : Prop :=
  forall a fs, I a -> ~ In Spinner fs -> I (set_html (html a ++ fs) a).

(** [I] survives the other writes of [executeNLQuery]: the first value of
    [html], the results element, the alerts, the settings dialog and the
    history. *)
Definition stable_page (I : State -> Prop) : Prop :=
  forall a, I a ->
    (forall sql, I (set_html [GeneratedSQLCard sql] a))
    /\ (forall r, I (set_nlResults r a))
    /\ (forall l, I (set_alerts l a))
    /\ (forall b, I (set_settingsModal b a))
    /\ (forall h, I (set_queryHistory h a)).

(** [I] survives every write of [runSQL] to the page. *)
Definition stable_editor (I : State -> Prop) : Prop :=
  forall a, I a ->
    (forall r, I (set_sqlResults r a)) /\ (forall l, I (set_alerts l a)).

(** [logs Q before a]: since the trace was [before], only events that
    satisfy [Q] were logged. *)
Definition logs (Q : Event -> Prop) (before : list Event) (a : State) : Prop :=
  exists evs, trace a = before ++ evs /\ Forall Q evs.

(** A request that [callLLM] builds from the settings [st]. *)
Definition sent_with (st : Settings) (r : Request) : Prop :=
  exists label prompt, request_of st prompt = Some (label, r).

Definition fetch_sent_with (st : Settings) (e : Event) : Prop :=
  match e with
  | EvFetch r => sent_with st r
  | EvExec _ => True
  end.

(** None of the three providers [callLLM] knows. *)
Definition unknown_provider (st : Settings) : Prop :=
  st.(provider) <> js "openai" /\ st.(provider) <> js "gemini"
  /\ st.(provider) <> js "groq".

(** The three entry checks of [executeNLQuery] pass. *)
Definition ready (a : State) : Prop :=
  trim a.(nlInput) <> [] /\ a.(db) <> None /\ a.(settings).(apiKey) <> [].

(** The entry checks of [runSQL] pass. *)
Definition editor_ready (a : State) : Prop :=
  trim a.(sqlEditor) <> [] /\ a.(db) <> None.

End WithPlatform.

(** The text holds two fences that do not overlap: an opening and a
    closing one. *)
Definition has_block (s : jsstring) : Prop :=
  exists x y z, s = x ++ Clean.fence ++ y ++ Clean.fence ++ z.

(** [s] has no white space at either end. *)
Definition trimmed (s : jsstring) : Prop :=
  match s with
  | [] => True
  | c :: _ => is_space c = false /\ is_space (last s c) = false
  end.

End Logic.

(** ** [exportCSV]: the text of the file *)

Module Csv.
Import App.

(** [str.includes(p)] *)
Fixpoint includes (p s : jsstring) : bool :=
  starts_with p s || match s with [] => false | _ :: s' => includes p s' end.

(** The value a cell that is not [null] is mapped to: the text of the cell,
    put between double quotes with every double quote in it doubled when it
    includes a comma, a double quote or a line feed. *)
Definition csv_field (str : jsstring) : jsstring :=
  if includes (js ",") str || includes dquote str || includes nl str
  then dquote ++ replace_all dquote (dquote ++ dquote) str ++ dquote
  else str.

(** What the doubling of the double quotes makes of one code unit. *)
Definition double_quote (c : N) : jsstring :=
  if (c =? 34)%N then [34%N; 34%N] else [c].

(** Reading a field back from the head of a line: a device to show that a
    line determines its fields. A quoted field ends at the first double
    quote that is not followed by another one; a plain field ends before
    the first comma. The result is the text and what follows the field. *)
Fixpoint read_quoted (acc s : jsstring) : jsstring * jsstring :=
  match s with
  | [] => (rev acc, [])
  | c :: s' =>
    if (c =? 34)%N then
      match s' with
      | d :: s'' => if (d =? 34)%N then read_quoted (34%N :: acc) s'' else (rev acc, s')
      | [] => (rev acc, [])
      end
    else read_quoted (c :: acc) s'
  end.

Fixpoint read_plain (s : jsstring) : jsstring * jsstring :=
  match s with
  | [] => ([], [])
  | c :: s' =>
    if (c =? 44)%N then ([], s)
    else let (text, rest) := read_plain s' in (c :: text, rest)
  end.

Definition read_field (s : jsstring) : jsstring * jsstring :=
  match s with
  | c :: s' => if (c =? 34)%N then read_quoted [] s' else read_plain s
  | [] => ([], [])
  end.

Section WithPlatform.
Context {P : Platform}.

(** The text a cell stands for in the file: nothing for [null]. *)
Definition cell_text (cell : Data.value Num) : jsstring :=
  match cell with
  | VNull => []
  | _ => to_string cell
  end.

Definition csv_cell (cell : Data.value Num) : jsstring :=
  match cell with
  | VNull => []
  | _ => csv_field (to_string cell)
  end.

(** The header line: the column names, each between double quotes as it
    is, joined by commas. *)
Definition csv_header (columns : list jsstring) : jsstring :=
  join (js ",") (map (fun col => dquote ++ col ++ dquote) columns) ++ nl.

(** [row.map(cell => ...).join(',') + '\n'] *)
Definition csv_row (row : list (Data.value Num)) : jsstring :=
  join (js ",") (map csv_cell row) ++ nl.

(** The text [exportCSV(result)] puts into the file it offers. *)
Definition csv_text (result : Data.QueryResult Num) : jsstring :=
  csv_header result.(columns) ++ concat (map csv_row result.(values)).

End WithPlatform.
End Csv.

(** ** [createERDiagramSVG]: where the boxes go

    The arithmetic of the layout, on the index of a table in the catalogue
    and the number of its columns. Indices and counts are array lengths, so
    every value below is an integer that a JavaScript number holds exactly. *)

Module Diagram.

(** [x: (index % 3) * 250 + 50] *)
Definition table_x (index : N) : N := (index mod 3) * 250 + 50.

(** [y: Math.floor(index / 3) * 200 + 50] *)
Definition table_y (index : N) : N := (index / 3) * 200 + 50.

(** The width of the rectangle of a table. *)
Definition table_width : N := 200.

(** [tableHeight = 30 + table.columns.length * 25] *)
Definition table_height (columns : N) : N := 30 + columns * 25.

(** [width = Math.max(800, tables.length * 150)] *)
Definition svg_width (tables : N) : N := N.max 800 (tables * 150).

(** [height = Math.max(600, Math.ceil(tables.length / 3) * 250)] *)
Definition svg_height (tables : N) : N := N.max 600 (((tables + 2) / 3) * 250).

(** The end of a relationship line at a table: [x + 100], [y + 50]. *)
Definition anchor_x (index : N) : N := table_x index + 100.
Definition anchor_y (index : N) : N := table_y index + 50.

End Diagram.

(** ** [toggleTheme] and [applyTheme] *)

Module Theme.
Import App.

(** What the theme code reads and writes: [document.body.dataset.theme],
    the entry [theme] of the local storage, the theme option of the editor
    and the last theme handed to [window.updateThemeIcon]. *)
Record Page : Type := mkPage {
  body_theme : option jsstring;
  stored_theme : option jsstring;
  editor_theme : jsstring;
  icon_theme : option jsstring
}.

(** [v || 'light'] for a value that is absent or a string *)
Definition or_light (v : option jsstring) : jsstring :=
  match v with
  | Some (c :: s) => c :: s
  | _ => js "light"
  end.

Section WithHook.
(** Whether [window.updateThemeIcon] is defined. *)
Variable has_hook : bool.

Definition update_icon (theme : jsstring) (p : Page) : option jsstring :=
  if has_hook then Some theme else p.(icon_theme).

Definition toggleTheme (p : Page) : Page :=
  let currentTheme := or_light p.(body_theme) in
  let newTheme := if str_eqb currentTheme (js "light") then js "dark" else js "light" in
  mkPage (Some newTheme) (Some newTheme)
         (if str_eqb newTheme (js "dark") then js "monokai" else js "default")
         (update_icon newTheme p).

Definition applyTheme (p : Page) : Page :=
  let savedTheme := or_light p.(stored_theme) in
  mkPage (Some savedTheme) p.(stored_theme) p.(editor_theme) (update_icon savedTheme p).

(** The theme part of [init]: [initCodeMirror] creates the editor with the
    theme [monokai], [applyTheme] runs last. *)
Definition init_theme (p : Page) : Page :=
  applyTheme (mkPage p.(body_theme) p.(stored_theme) (js "monokai") p.(icon_theme)).

End WithHook.

(** The editor is dark exactly when the page is. *)
Definition consistent (p : Page) : Prop :=
  p.(editor_theme) = js "monokai" <-> p.(body_theme) = Some (js "dark").

End Theme.

(** ** More scenarios on the small platform *)

Module Cases.
Import App Toy Theme.

(** The settings name a provider [callLLM] does not know. *)
Definition other_provider : State :=
  mkState (Some [js "users"])
          (mkSettings (js "mistral") (js "sk-test") (js "gpt-3.5-turbo") (js "gemini-pro")
                      (js "mixtral-8x7b-32768") [])
          [] [answer "SELECT 1"] (js "how many") [] [] [] [] false [] [].

(** The network is down: every request is rejected. *)
Definition offline : State := start [js "users"] (js "how many") [] [].

(** The editor holds three statements, the second on a table that does not
    exist. *)
Definition failing_editor : State :=
  start [js "users"] [] (js "SELECT 1; SELECT * FROM missing; SELECT 2") [].

(** The small platform with a damaged database file: every statement
    raises. *)
Definition damaged : Platform := {|
  Num := Z;
  num_to_string := z_to_string;
  num_truthy := fun z => negb (Z.eqb z 0);
  DB := list jsstring;
  db_exec := fun d _ => (d, ExecError (js "database disk image is malformed"));
  Net := list FetchOutcome;
  net_fetch := toy_fetch
|}.

(** The model answers with a statement that holds the text of a character
    reference; the engine rejects it and the repair call gives another
    statement. *)
Definition reference_in_answer : State :=
  start [js "users"] (js "is two less than three") []
        [answer "SELECT 2 &lt; 3"; answer "SELECT 1"].

(** A page in the dark theme. *)
Definition dark_page : Page :=
  mkPage (Some (js "dark")) (Some (js "dark")) (js "monokai") None.

End Cases.

(** ** Facts about strings *)

Section StringFacts.

Lemma strip_starts_with p s r : strip p s = Some r -> starts_with p s = true.
Proof.
  revert s; induction p as [|x p IH]; intros [|y s]; simpl; try easy.
  destruct (N.eqb x y); [apply IH | discriminate].
Qed.

Lemma strip_none_starts_with p s : strip p s = None -> starts_with p s = false.
Proof.
  revert s; induction p as [|x p IH]; intros [|y s]; simpl; try easy.
  destruct (N.eqb x y); [apply IH | reflexivity].
Qed.

Lemma strip_app p s r : strip p s = Some r -> s = p ++ r.
Proof.
  revert s; induction p as [|x p IH]; intros [|y s]; simpl; try easy.
  - intros [= <-]; reflexivity.
  - intros [= <-]; reflexivity.
  - destruct (N.eqb_spec x y) as [->|]; [|discriminate].
    intros H; f_equal; auto.
Qed.

Lemma strip_app_same p r : strip p (p ++ r) = Some r.
Proof.
  induction p as [|x p IH]; simpl; [reflexivity|].
  rewrite N.eqb_refl; exact IH.
Qed.

Lemma trim_cons_space c s : is_space c = true -> trim (c :: s) = trim s.
Proof. intros H; unfold trim; simpl; rewrite H; reflexivity. Qed.

Lemma trim_start_snoc c s :
  is_space c = true ->
  trim_start (s ++ [c]) =
  match trim_start s with [] => [] | t => t ++ [c] end.
Proof.
  intros Hc; induction s as [|a s IH]; simpl.
  - rewrite Hc; reflexivity.
  - destruct (is_space a); [exact IH | reflexivity].
Qed.

Lemma trim_end_snoc c s : is_space c = true -> trim_end (s ++ [c]) = trim_end s.
Proof.
  intros Hc; unfold trim_end; rewrite rev_app_distr; simpl; rewrite Hc; reflexivity.
Qed.

Lemma trim_snoc_space c s : is_space c = true -> trim (s ++ [c]) = trim s.
Proof.
  intros Hc; unfold trim; rewrite (trim_start_snoc c s Hc).
  destruct (trim_start s) as [|a t]; [reflexivity|].
  apply trim_end_snoc; exact Hc.
Qed.

End StringFacts.

(** ** The regular expression search and the first fenced block *)

Module CleanFacts.
Import Clean.

Lemma find_fence_cons_other c s :
  strip fence (c :: s) = None ->
  find_fence (c :: s) =
  match find_fence s with Some (b, r) => Some (c :: b, r) | None => None end.
Proof. intros H; cbn [find_fence]; rewrite H; reflexivity. Qed.

Lemma find_fence_head s r : strip fence s = Some r -> find_fence s = Some ([], r).
Proof. intros H; destruct s; cbn [find_fence]; rewrite H; reflexivity. Qed.

Lemma strip_fence_cons c s :
  strip fence (c :: s) = if (96 =? c)%N then strip [96%N; 96%N] s else None.
Proof. reflexivity. Qed.

Lemma strip_fence_not_tick c s : c <> 96%N -> strip fence (c :: s) = None.
Proof.
  intros Hc; rewrite strip_fence_cons.
  destruct (N.eqb_spec 96 c); [congruence | reflexivity].
Qed.

Lemma find_fence_sound s b r : find_fence s = Some (b, r) -> s = b ++ fence ++ r.
Proof.
  revert b r; induction s as [|c s IH]; intros b r.
  - cbn; discriminate.
  - cbn [find_fence]. destruct (strip fence (c :: s)) as [rest|] eqn:E.
    + intros [= <- <-]; apply (strip_app _ _ _ E).
    + destruct (find_fence s) as [[b' r']|]; [|discriminate].
      intros [= <- <-]; simpl; f_equal; apply IH; reflexivity.
Qed.

Lemma find_fence_none_suffix p s : find_fence (p ++ s) = None -> find_fence s = None.
Proof.
  induction p as [|c p IH]; [easy|]; simpl app.
  cbn [find_fence]. destruct (strip fence (c :: p ++ s)); [discriminate|].
  destruct (find_fence (p ++ s)) as [[? ?]|]; [discriminate|]; auto.
Qed.

Lemma lazy_group_spec s : forall acc,
  match find_fence s with
  | None => lazy_group acc s = None
  | Some (before, _) =>
      exists g, lazy_group acc s = Some (rev acc ++ g)
                /\ (before = g \/ before = g ++ [10%N])
  end.
Proof.
  induction s as [|c s IH]; intros acc.
  - reflexivity.
  - destruct (strip fence (c :: s)) as [rest|] eqn:E.
    + rewrite (find_fence_head _ _ E).
      exists []; split; [|left; reflexivity].
      cbn [lazy_group closes].
      rewrite (strip_starts_with _ _ _ E), orb_true_r, app_nil_r; reflexivity.
    + rewrite (find_fence_cons_other _ _ E).
      cbn [lazy_group closes].
      rewrite (strip_none_starts_with _ _ E), orb_false_r.
      destruct (N.eqb_spec c 10) as [->|Hc]; cbn [andb].
      * destruct (strip fence s) as [r|] eqn:E'.
        -- rewrite (find_fence_head _ _ E'), (strip_starts_with _ _ _ E').
           exists []; split; [rewrite app_nil_r; reflexivity | right; reflexivity].
        -- rewrite (strip_none_starts_with _ _ E').
           specialize (IH (10%N :: acc)).
           destruct (find_fence s) as [[b r]|]; [|exact IH].
           destruct IH as (g & Hg & Hb). exists (10%N :: g); split.
           ++ rewrite Hg; simpl; rewrite <- app_assoc; reflexivity.
           ++ destruct Hb as [->| ->]; [left | right]; reflexivity.
      * specialize (IH (c :: acc)).
        destruct (find_fence s) as [[b r]|]; [|exact IH].
        destruct IH as (g & Hg & Hb). exists (c :: g); split.
        -- rewrite Hg; simpl; rewrite <- app_assoc; reflexivity.
        -- destruct Hb as [->| ->]; [left | right]; reflexivity.
Qed.

Lemma lazy_group_agrees s : agrees (lazy_group [] s) s.
Proof.
  unfold agrees; pose proof (lazy_group_spec s []) as H.
  destruct (find_fence s) as [[b r]|]; [|exact H].
  destruct H as (g & Hg & Hb); exists g; split; [exact Hg|].
  destruct Hb as [->| ->]; [reflexivity|].
  symmetry; apply trim_snoc_space; reflexivity.
Qed.

Lemma find_fence_cons_space c s :
  is_space c = true ->
  find_fence (c :: s) =
  match find_fence s with Some (b, r) => Some (c :: b, r) | None => None end.
Proof.
  intros Hc; apply find_fence_cons_other, strip_fence_not_tick.
  intros ->; discriminate.
Qed.

Lemma agrees_none r s : agrees r s -> find_fence s = None -> r = None.
Proof. unfold agrees; intros H E; rewrite E in H; exact H. Qed.

Lemma agrees_cons_space r c s :
  is_space c = true -> agrees r s -> r <> None -> agrees r (c :: s).
Proof.
  unfold agrees; intros Hc H Hr; rewrite (find_fence_cons_space _ _ Hc).
  destruct (find_fence s) as [[b t]|]; [|contradiction].
  destruct H as (g & -> & Hg); exists g; split; [reflexivity|].
  rewrite (trim_cons_space _ _ Hc); exact Hg.
Qed.

Lemma opt_newline_agrees s : agrees (opt_newline s) s.
Proof.
  pose proof (lazy_group_agrees s) as Hs. unfold opt_newline.
  destruct s as [|c s]; [exact Hs|].
  destruct (N.eqb_spec c 10) as [->|Hc]; [|exact Hs].
  pose proof (lazy_group_agrees s) as Hs'.
  destruct (lazy_group [] s) as [g|] eqn:E; [|exact Hs].
  apply agrees_cons_space; [reflexivity | exact Hs' | discriminate].
Qed.

Lemma spaces_agrees s : agrees (spaces s) s.
Proof.
  induction s as [|c s IH]; [apply (opt_newline_agrees []) |].
  cbn [spaces]. destruct (is_space c) eqn:Hc; [|apply opt_newline_agrees].
  destruct (spaces s) as [g|] eqn:E.
  - apply agrees_cons_space; [exact Hc | exact IH | discriminate].
  - apply opt_newline_agrees.
Qed.

(** Neither tag holds a backtick, so removing it moves no fence. *)
Lemma find_fence_strip_tag s :
  find_fence s = None <-> find_fence (strip_tag s) = None.
Proof.
  unfold strip_tag.
  destruct (strip (js "sql") s) as [t|] eqn:E1;
    [| destruct (strip (js "SQL") s) as [t|] eqn:E2; [|tauto]].
  - apply strip_app in E1; subst s; split.
    + apply (find_fence_none_suffix (js "sql")).
    + intros H. change (js "sql" ++ t) with (115 :: 113 :: 108 :: t)%N.
      rewrite !find_fence_cons_other, H by reflexivity; reflexivity.
  - apply strip_app in E2; subst s; split.
    + apply (find_fence_none_suffix (js "SQL")).
    + intros H. change (js "SQL" ++ t) with (83 :: 81 :: 76 :: t)%N.
      rewrite !find_fence_cons_other, H by reflexivity; reflexivity.
Qed.

Lemma opt_tag_agrees s : agrees (opt_tag s) (strip_tag s).
Proof.
  unfold opt_tag.
  destruct (strip (js "sql") s) as [t|] eqn:E1.
  - assert (Ht : strip_tag s = t) by (unfold strip_tag; rewrite E1; reflexivity).
    pose proof (spaces_agrees t) as At.
    destruct (spaces t) as [g|] eqn:Eg; [rewrite Ht; exact At|].
    assert (E2 : strip (js "SQL") s = None).
    { apply strip_app in E1; subst s; reflexivity. }
    rewrite E2; cbn [orelse].
    assert (Hn : find_fence t = None).
    { unfold agrees in At; destruct (find_fence t) as [[b r]|]; [|reflexivity].
      destruct At as (g & Hg & _); discriminate. }
    rewrite <- Ht in Hn. apply find_fence_strip_tag in Hn.
    rewrite (agrees_none _ _ (spaces_agrees s) Hn).
    unfold agrees. apply find_fence_strip_tag in Hn; rewrite Hn; reflexivity.
  - cbn [orelse]. destruct (strip (js "SQL") s) as [t|] eqn:E2.
    + assert (Ht : strip_tag s = t) by (unfold strip_tag; rewrite E1, E2; reflexivity).
      pose proof (spaces_agrees t) as At.
      destruct (spaces t) as [g|] eqn:Eg; [rewrite Ht; exact At|].
      cbn [orelse].
      assert (Hn : find_fence t = None).
      { unfold agrees in At; destruct (find_fence t) as [[b r]|]; [|reflexivity].
        destruct At as (g & Hg & _); discriminate. }
      rewrite <- Ht in Hn. apply find_fence_strip_tag in Hn.
      rewrite (agrees_none _ _ (spaces_agrees s) Hn).
      unfold agrees. apply find_fence_strip_tag in Hn; rewrite Hn; reflexivity.
    + cbn [orelse].
      replace (strip_tag s) with s by (unfold strip_tag; rewrite E1, E2; reflexivity).
      apply spaces_agrees.
Qed.

Lemma opt_tag_none s : find_fence s = None -> opt_tag s = None.
Proof.
  intros H; apply find_fence_strip_tag in H.
  exact (agrees_none _ _ (opt_tag_agrees s) H).
Qed.

Lemma opt_tag_none_inv s : opt_tag s = None -> find_fence s = None.
Proof.
  intros H; apply find_fence_strip_tag.
  pose proof (opt_tag_agrees s) as A; unfold agrees in A; rewrite H in A.
  destruct (find_fence (strip_tag s)) as [[b r]|]; [|reflexivity].
  destruct A as (g & Hg & _); discriminate.
Qed.

(** The leftmost match starts at the first fence of the text; when the
    pattern fails there it fails at every later position too. *)
Lemma regex_exec_spec s :
  regex_exec s =
  match find_fence s with
  | None => None
  | Some (_, after_open) => opt_tag after_open
  end.
Proof.
  induction s as [|c s IH]; [reflexivity|].
  cbn [regex_exec]; unfold match_here.
  destruct (strip fence (c :: s)) as [after|] eqn:E.
  - rewrite (find_fence_head _ _ E).
    destruct (opt_tag after) as [g|] eqn:Eg; [reflexivity|]; cbn [orelse].
    rewrite IH. destruct (find_fence s) as [[b after2]|] eqn:E2; [|reflexivity].
    apply opt_tag_none. apply opt_tag_none_inv in Eg.
    apply strip_app in E. apply find_fence_sound in E2.
    change fence with [96%N; 96%N; 96%N] in E, E2.
    injection E as -> ->.
    destruct b as [|x [|y b]]; cbn [app] in E2.
    + injection E2 as ->.
      apply (find_fence_none_suffix [96%N]); exact Eg.
    + injection E2 as _ ->.
      apply (find_fence_none_suffix [96%N; 96%N]); exact Eg.
    + injection E2 as _ _ ->.
      apply (find_fence_none_suffix (b ++ [96%N; 96%N; 96%N])).
      rewrite <- app_assoc; exact Eg.
  - rewrite (find_fence_cons_other _ _ E); cbn [orelse]; rewrite IH.
    destruct (find_fence s) as [[b r]|]; reflexivity.
Qed.

Lemma clean_refines s : cleanLLMResponse s = clean_spec s.
Proof.
  unfold clean_spec, first_block.
  destruct s as [|c s]; [reflexivity|].
  unfold cleanLLMResponse; rewrite regex_exec_spec.
  destruct (find_fence (c :: s)) as [[b after]|]; [|reflexivity].
  pose proof (opt_tag_agrees after) as A; unfold agrees in A.
  destruct (find_fence (strip_tag after)) as [[content r]|].
  - destruct A as (g & -> & Hg); exact Hg.
  - rewrite A; reflexivity.
Qed.

Lemma find_fence_none_iff s : find_fence s = None <-> ~ substring_of fence s.
Proof.
  split.
  - intros H (pre & post & ->).
    apply find_fence_none_suffix in H.
    rewrite (find_fence_head _ _ (strip_app_same fence post)) in H; discriminate.
  - intros H. destruct (find_fence s) as [[b r]|] eqn:E; [|reflexivity].
    exfalso; apply H; exists b, r; apply find_fence_sound; exact E.
Qed.

Lemma find_fence_no_tick pre rest :
  no_tick pre = true -> find_fence (pre ++ fence ++ rest) = Some (pre, rest).
Proof.
  induction pre as [|c pre IH]; simpl no_tick; intros H.
  - apply find_fence_head; apply (strip_app_same fence rest).
  - apply andb_prop in H as [Hc Hp].
    change ((c :: pre) ++ fence ++ rest) with (c :: (pre ++ fence ++ rest)).
    rewrite find_fence_cons_other.
    + rewrite (IH Hp); reflexivity.
    + apply strip_fence_not_tick; intros ->; discriminate.
Qed.

Lemma strip_before_tick p body rest :
  no_tick p = true ->
  strip p (body ++ 96%N :: rest) =
  option_map (fun t => t ++ 96%N :: rest) (strip p body).
Proof.
  revert body; induction p as [|x p IH]; intros body H; [reflexivity|].
  simpl in H; apply andb_prop in H as [Hx Hp].
  destruct body as [|y body]; simpl.
  - destruct (N.eqb_spec x 96) as [->|]; [discriminate | reflexivity].
  - destruct (N.eqb x y); [apply IH; exact Hp | reflexivity].
Qed.

Lemma strip_tag_before_fence body rest :
  strip_tag (body ++ fence ++ rest) = strip_tag body ++ fence ++ rest.
Proof.
  unfold strip_tag. change (fence ++ rest) with (96%N :: 96%N :: 96%N :: rest).
  rewrite !strip_before_tick by reflexivity.
  destruct (strip (js "sql") body); [reflexivity|].
  destruct (strip (js "SQL") body); reflexivity.
Qed.

Lemma no_tick_strip p s t : strip p s = Some t -> no_tick s = true -> no_tick t = true.
Proof.
  revert s; induction p as [|x p IH]; intros [|y s]; simpl; try easy.
  - intros [= <-]; trivial.
  - intros [= <-]; trivial.
  - destruct (N.eqb x y); [|discriminate].
    intros E H; apply andb_prop in H as [_ H]; eauto.
Qed.

Lemma no_tick_strip_tag s : no_tick s = true -> no_tick (strip_tag s) = true.
Proof.
  intros H; unfold strip_tag.
  destruct (strip (js "sql") s) eqn:E1; [exact (no_tick_strip _ _ _ E1 H)|].
  destruct (strip (js "SQL") s) eqn:E2; [exact (no_tick_strip _ _ _ E2 H) | exact H].
Qed.

End CleanFacts.

(** C5. [cleanLLMResponse] returns the trimmed content of the first fenced
    block (after its optional [sql]/[SQL] tag) of any text that has one, and
    the trimmed text itself when no fence occurs in it; further blocks are
    ignored: [rest] below is arbitrary. The first conjunct says the same
    for every input at once, through [clean_spec]. *)
Theorem C5_clean_first_block :
  (forall s, Clean.cleanLLMResponse s = Clean.clean_spec s)
  /\ (forall pre body rest,
        Clean.no_tick pre = true -> Clean.no_tick body = true ->
        Clean.cleanLLMResponse (pre ++ Clean.fence ++ body ++ Clean.fence ++ rest)
        = trim (Clean.strip_tag body))
  /\ (forall s, ~ substring_of Clean.fence s -> Clean.cleanLLMResponse s = trim s)
  /\ Clean.cleanLLMResponse (js "```sql" ++ nl ++ js "SELECT 1;" ++ nl ++ js "```")
     = js "SELECT 1;"
  /\ Clean.cleanLLMResponse (js "no fence here") = js "no fence here"
  /\ Clean.cleanLLMResponse
       (js "```" ++ nl ++ js "SELECT 1;" ++ nl ++ js "``` or ```sql" ++ nl
        ++ js "SELECT 2;" ++ nl ++ js "```")
     = js "SELECT 1;".
Proof.
  split; [exact CleanFacts.clean_refines|].
  split.
  { intros pre body rest Hp Hb.
    rewrite CleanFacts.clean_refines; unfold Clean.clean_spec, Clean.first_block.
    rewrite (CleanFacts.find_fence_no_tick pre _ Hp).
    rewrite CleanFacts.strip_tag_before_fence.
    rewrite (CleanFacts.find_fence_no_tick _ rest (CleanFacts.no_tick_strip_tag _ Hb)).
    reflexivity. }
  split.
  { intros s Hs. apply CleanFacts.find_fence_none_iff in Hs.
    rewrite CleanFacts.clean_refines; unfold Clean.clean_spec, Clean.first_block.
    rewrite Hs; reflexivity. }
  repeat split; vm_compute; reflexivity.
Qed.

Lemma C5_clean_first_block_witness :
  Clean.cleanLLMResponse
    (js "Sure: " ++ Clean.fence ++ (js "SQL" ++ nl ++ js "SELECT a FROM t;" ++ nl)
     ++ Clean.fence ++ js " and also ```x```")
  = js "SELECT a FROM t;"
  /\ Clean.cleanLLMResponse (js "  SELECT `a` FROM t  ") = js "SELECT `a` FROM t".
Proof.
  split.
  - rewrite (proj1 (proj2 C5_clean_first_block)) by reflexivity.
    vm_compute; reflexivity.
  - rewrite (proj1 (proj2 (proj2 C5_clean_first_block))).
    + vm_compute; reflexivity.
    + apply CleanFacts.find_fence_none_iff; vm_compute; reflexivity.
Defined.

(** ** Properties of the pipeline *)

Import App Runs.

Section Lists.

Lemma join_substring (sep p : jsstring) (parts : list jsstring) :
  In p parts -> substring_of p (join sep parts).
Proof.
  induction parts as [|q parts IH]; [intros []|].
  intros [->|Hin].
  - destruct parts as [|q' parts].
    + exists [], []; simpl; rewrite app_nil_r; reflexivity.
    + exists [], (sep ++ join sep (q' :: parts)); reflexivity.
  - destruct parts as [|q' parts]; [destruct Hin|].
    destruct (IH Hin) as (pre & post & E).
    exists (q ++ sep ++ pre), post.
    change (join sep (q :: q' :: parts)) with (q ++ sep ++ join sep (q' :: parts)).
    rewrite E, <- !app_assoc; reflexivity.
Qed.

Lemma substring_mid (s pre post : jsstring) : substring_of s (pre ++ s ++ post).
Proof. exists pre, post; reflexivity. Qed.

Lemma substring_trans (s t u : jsstring) :
  substring_of s t -> substring_of t u -> substring_of s u.
Proof.
  intros (p1 & q1 & ->) (p2 & q2 & ->).
  exists (p2 ++ p1), (q1 ++ q2); rewrite <- !app_assoc; reflexivity.
Qed.

Lemma str_eqb_eq (a b : jsstring) : str_eqb a b = true <-> a = b.
Proof.
  revert b; induction a as [|x a IH]; intros [|y b]; simpl; try easy.
  rewrite andb_true_iff, N.eqb_eq, IH. split.
  - intros [-> ->]; reflexivity.
  - intros [= -> ->]; auto.
Qed.

Lemma str_eqb_refl (a : jsstring) : str_eqb a a = true.
Proof. apply str_eqb_eq; reflexivity. Qed.

End Lists.

Section Pipeline.
Context {P : Platform}.

(** C4. With an empty question (after trimming), or no database loaded, or
    an empty API key, [executeNLQuery] only raises one of its three warnings
    and returns: no network call and no engine call is logged, and the
    network, the database and the results element are left as they were. *)
Theorem C4_preconditions_no_work (a : State) :
  trim a.(nlInput) = [] \/ a.(db) = None \/ a.(settings).(apiKey) = [] ->
  exists message a',
    executeNLQuery a = (a', Return tt)
    /\ In message [js "Please enter a question";
                   js "Please load a database first";
                   js "Please configure your API key in settings"]
    /\ alerts a' = alerts a ++ [(message, js "warning")]
    /\ trace a' = trace a
    /\ count is_fetch (trace a') = count is_fetch (trace a)
    /\ count is_exec (trace a') = count is_exec (trace a)
    /\ net a' = net a /\ db a' = db a /\ nlResults a' = nlResults a.
Proof.
  intros H. unfold executeNLQuery, bind, get.
  destruct (trim (nlInput a)) as [|c q] eqn:Eq; cbn [is_empty].
  { exists (js "Please enter a question"); eexists; split; [reflexivity|].
    simpl; auto 10. }
  destruct (db a) as [d|] eqn:Ed.
  2:{ exists (js "Please load a database first"); eexists; split; [reflexivity|].
      simpl; rewrite Ed; auto 10. }
  destruct (apiKey (settings a)) as [|k ks] eqn:Ek; cbn [is_empty].
  { exists (js "Please configure your API key in settings"); eexists;
      split; [reflexivity|].
    simpl; rewrite Ed; auto 12. }
  destruct H as [H|[H|H]]; discriminate.
Qed.

(** C9. The explain prompt shows the question, the column names joined by
    [", "], and the rows of [results.values.slice(0, 5)] and no others, each
    row joined by [", "] with its strings put in as they are. *)
Theorem C9_explain_prompt_preview (question sqlQuery : jsstring)
        (results : Data.QueryResult Num) :
  explain_prompt question sqlQuery results
  = explain_prompt question sqlQuery
      (mkResult results.(columns) (firstn 5 results.(values)))
  /\ resultsPreview results
     = join nl (map (join_values (js ", ")) (firstn 5 results.(values)))
  /\ length (firstn 5 results.(values)) <= 5
  /\ substring_of (resultsPreview results) (explain_prompt question sqlQuery results)
  /\ (forall row, In row (firstn 5 results.(values)) ->
        substring_of (join_values (js ", ") row)
                     (explain_prompt question sqlQuery results))
  /\ (forall cells : list jsstring,
        join_values (js ", ") (map VStr cells) = join (js ", ") cells)
  /\ substring_of (join (js ", ") results.(columns))
                  (explain_prompt question sqlQuery results)
  /\ substring_of question (explain_prompt question sqlQuery results).
Proof.
  assert (Hprev : substring_of (resultsPreview results)
                               (explain_prompt question sqlQuery results)).
  { unfold explain_prompt. rewrite !app_assoc. rewrite <- app_assoc, <- app_assoc.
    rewrite <- app_assoc. apply substring_mid. }
  split; [|split; [|split; [|split; [|split; [|split; [|split]]]]]].
  - unfold explain_prompt, resultsPreview, slice0; cbn [values columns].
    rewrite firstn_firstn; reflexivity.
  - reflexivity.
  - apply firstn_le_length.
  - exact Hprev.
  - intros row Hin. apply substring_trans with (2 := Hprev).
    unfold resultsPreview, slice0. apply join_substring, in_map, Hin.
  - intros cells. unfold join_values. rewrite map_map. simpl.
    rewrite map_id; reflexivity.
  - exists (js "Given this question: " ++ dquote ++ question ++ dquote ++ nl ++ nl
            ++ js "And this SQL query: " ++ sqlQuery ++ nl ++ nl
            ++ js "Which returned these results (first 5 rows):" ++ nl).
    eexists. unfold explain_prompt. rewrite <- !app_assoc. reflexivity.
  - exists (js "Given this question: " ++ dquote).
    eexists. unfold explain_prompt. rewrite <- !app_assoc. reflexivity.
Qed.

(** *** The schema text *)

Lemma exec_ok (a : State) d d' sql results :
  db a = Some d -> db_exec d sql = (d', ExecOk results) ->
  exec sql a = (set_trace (trace a ++ [EvExec sql]) (set_db (Some d') a), Return results).
Proof. intros Hd He; unfold exec; rewrite Hd, He; reflexivity. Qed.

Lemma exec_error (a : State) d d' sql message :
  db a = Some d -> db_exec d sql = (d', ExecError message) ->
  exec sql a = (set_trace (trace a ++ [EvExec sql]) (set_db (Some d') a), Throw message).
Proof. intros Hd He; unfold exec; rewrite Hd, He; reflexivity. Qed.

Lemma schema_tables_spec d rows answers d' :
  Introspect d rows answers d' ->
  forall (a : State) schema, db a = Some d ->
    exists a', schema_tables rows schema a
               = (a', Return (schema ++ concat (map block answers)))
               /\ db a' = Some d'.
Proof.
  induction 1 as [d|d d1 d2 d3 row rows columns fks answers H1 H2 _ IH];
    intros a schema Hd.
  - exists a; split; [|exact Hd]. simpl; rewrite app_nil_r; reflexivity.
  - cbn [schema_tables]. unfold bind.
    rewrite (exec_ok a d d1 _ columns Hd H1).
    cbv zeta.
    set (a1 := set_trace _ (set_db (Some d1) a)).
    rewrite (exec_ok a1 d1 d2 _ fks eq_refl H2).
    match goal with |- context [schema_tables rows ?s ?b] =>
      destruct (IH b s eq_refl) as (a' & E & Hd')
    end.
    exists a'; split; [|exact Hd'].
    rewrite E; f_equal; f_equal.
    cbn [map concat]. unfold block at 2. cbn [a_name a_columns a_fks].
    rewrite <- !app_assoc; reflexivity.
Qed.

Lemma Introspect_length d rows answers d' :
  Introspect d rows answers d' -> length answers = length rows.
Proof. induction 1; simpl; congruence. Qed.

Lemma describe_block (t : TableAnswer) :
  t.(a_columns) <> None -> block t = Spec.table_text (describe t).
Proof.
  destruct t as [name [c|] f]; [intros _ | intros H; contradiction H; reflexivity].
  unfold block, Spec.table_text, describe; cbn.
  do 3 f_equal.
  rewrite map_map. f_equal.
  destruct f as [f|]; cbn; [|reflexivity].
  destruct (values f) as [|fk fks]; [reflexivity|].
  cbn [map]. rewrite map_map. reflexivity.
Qed.

(** C8 (amended). The schema text is one block per table of the catalogue,
    in the order of the catalogue: the header line, the [Columns:] section
    when the column query returned a result object, the [Foreign Keys:]
    section when the foreign-key query returned at least one row, and a
    blank line. When every column query returned a result object this is the
    rendering of the specification; a table whose column query returned
    none (a table without columns) is rendered as its header line and the
    blank line. *)
Theorem C8_schema_blocks (a : State) d d0 d' tables more answers :
  db a = Some d ->
  db_exec d catalogue_query = (d0, ExecOk (tables :: more)) ->
  Introspect d0 tables.(values) answers d' ->
  exists a',
    getSchemaForLLM a
    = (a', Return (concat (map (fun t =>
                      js "Table: " ++ to_string t.(a_name) ++ nl
                      ++ columns_section t.(a_columns)
                      ++ fks_section t.(a_fks)
                      ++ nl) answers)))
    /\ length answers = length tables.(values)
    /\ (Forall (fun t => t.(a_columns) <> None) answers ->
        getSchemaForLLM a = (a', Return (Spec.toPromptText (map describe answers))))
    /\ (forall name fks,
          block (mkAnswer name None fks)
          = js "Table: " ++ to_string name ++ nl ++ fks_section fks ++ nl)
    /\ (forall fks, fks_section fks = [] <-> rows_of fks = []).
Proof.
  intros Hd Hc Hi.
  assert (Hrun : exists a', getSchemaForLLM a
                            = (a', Return (concat (map block answers)))).
  { unfold getSchemaForLLM, bind, get. rewrite Hd.
    rewrite (exec_ok a d d0 _ _ Hd Hc). cbn [hd_error].
    destruct (schema_tables_spec _ _ _ _ Hi
                (set_trace (trace a ++ [EvExec catalogue_query]) (set_db (Some d0) a))
                [] eq_refl) as (a' & E & _).
    exists a'; exact E. }
  destruct Hrun as (a' & E). exists a'.
  split; [exact E|].
  split; [exact (Introspect_length _ _ _ _ Hi)|].
  split.
  { intros Hall. rewrite E.
    assert (Ht : concat (map block answers) = Spec.toPromptText (map describe answers)).
    { unfold Spec.toPromptText. clear - Hall.
      induction Hall as [|t ts Ht _ IH]; [reflexivity|].
      cbn [map concat]. rewrite (describe_block t Ht), IH; reflexivity. }
    rewrite Ht; reflexivity. }
  split; [reflexivity|].
  intros [f|]; [|split; reflexivity].
  unfold fks_section, rows_of. destruct (values f); [split; reflexivity|].
  split; discriminate.
Qed.

(** *** What one engine call and one provider call do to the state *)

Lemma exec_cases sql (a a' : State) (o : Outcome (list (Data.QueryResult Num))) :
  exec sql a = (a', o) ->
  (db a = None /\ a' = a /\ o = Throw (js "Cannot read properties of null"))
  \/ (exists d d' out,
        db a = Some d /\ db_exec d sql = (d', out)
        /\ a' = set_trace (trace a ++ [EvExec sql]) (set_db (Some d') a)
        /\ o = match out with
               | ExecError message => Throw message
               | ExecOk results => Return results
               end).
Proof.
  unfold exec. destruct (db a) as [d|] eqn:Hd.
  - destruct (db_exec d sql) as [d' out] eqn:He. intros E; right.
    exists d, d', out. destruct out; injection E as <- <-; auto.
  - intros [= <- <-]; left; auto.
Qed.

Lemma call_provider_spec label r (a : State) :
  call_provider label r a
  = (set_trace (trace a ++ [EvFetch r]) (set_net (fst (net_fetch (net a) r)) a),
     completion_of label (snd (net_fetch (net a) r))).
Proof.
  unfold call_provider, bind, fetch.
  destruct (net_fetch (net a) r) as [n' out]; cbn [fst snd].
  destruct out as [m|[|] st [m|t]]; reflexivity.
Qed.

Lemma callLLM_spec prompt (a : State) :
  callLLM prompt a
  = match request_of (settings a) prompt with
    | None => (a, Throw (js "Unknown LLM provider"))
    | Some (label, r) =>
      (set_trace (trace a ++ [EvFetch r]) (set_net (fst (net_fetch (net a) r)) a),
       completion_of label (snd (net_fetch (net a) r)))
    end.
Proof.
  unfold callLLM, request_of, bind, get.
  destruct (str_eqb (provider (settings a)) (js "openai"));
    [apply call_provider_spec|].
  destruct (str_eqb (provider (settings a)) (js "gemini"));
    [apply call_provider_spec|].
  destruct (str_eqb (provider (settings a)) (js "groq"));
    [apply call_provider_spec|].
  reflexivity.
Qed.

Lemma request_of_prompt st prompt label r :
  request_of st prompt = Some (label, r) -> request_prompt r = prompt.
Proof.
  unfold request_of.
  repeat match goal with |- context [if ?b then _ else _] => destruct b end;
    intros [= <- <-]; reflexivity.
Qed.

(** *** Counting calls *)

Lemma count_app f (xs ys : list Event) : count f (xs ++ ys) = count f xs + count f ys.
Proof. unfold count; rewrite filter_app, length_app; reflexivity. Qed.

Lemma bounded_weaken {A} (m : M A) n k n' k' :
  bounded m n k -> n <= n' -> k <= k' -> bounded m n' k'.
Proof.
  intros H Hn Hk a a' o E. destruct (H a a' o E) as (evs & Ht & H1 & H2).
  exists evs; repeat split; [exact Ht | lia | lia].
Qed.

Lemma bounded_ret {A} (x : A) : bounded (ret x) 0 0.
Proof.
  intros a a' o [= <- <-]. exists []; rewrite app_nil_r; auto.
Qed.

Lemma bounded_throw {A} message : bounded (@throw P A message) 0 0.
Proof.
  intros a a' o [= <- <-]. exists []; rewrite app_nil_r; auto.
Qed.

Lemma bounded_get : bounded get 0 0.
Proof.
  intros a a' o [= <- <-]. exists []; rewrite app_nil_r; auto.
Qed.

Lemma bounded_modify f :
  (forall a : State, trace (f a) = trace a) -> bounded (modify f) 0 0.
Proof.
  intros Hf a a' o [= <- <-]. exists []; rewrite app_nil_r, Hf; auto.
Qed.

Lemma bounded_bind {A B} (m : M A) (f : A -> M B) n1 k1 n2 k2 :
  bounded m n1 k1 -> (forall x, bounded (f x) n2 k2) ->
  bounded (bind m f) (n1 + n2) (k1 + k2).
Proof.
  intros Hm Hf a a' o. unfold bind.
  destruct (m a) as [a1 [e|x]] eqn:E1.
  - intros [= <- <-]. destruct (Hm _ _ _ E1) as (evs & Ht & H1 & H2).
    exists evs; repeat split; [exact Ht | lia | lia].
  - intros E2. destruct (Hm _ _ _ E1) as (evs1 & Ht1 & H1 & H2).
    destruct (Hf x _ _ _ E2) as (evs2 & Ht2 & H3 & H4).
    exists (evs1 ++ evs2). rewrite Ht2, Ht1, <- app_assoc, !count_app.
    repeat split; lia.
Qed.

Lemma bounded_try_catch {A} (m : M A) (h : jsstring -> M A) n1 k1 n2 k2 :
  bounded m n1 k1 -> (forall e, bounded (h e) n2 k2) ->
  bounded (try_catch m h) (n1 + n2) (k1 + k2).
Proof.
  intros Hm Hh a a' o. unfold try_catch.
  destruct (m a) as [a1 [e|x]] eqn:E1.
  - intros E2. destruct (Hm _ _ _ E1) as (evs1 & Ht1 & H1 & H2).
    destruct (Hh e _ _ _ E2) as (evs2 & Ht2 & H3 & H4).
    exists (evs1 ++ evs2). rewrite Ht2, Ht1, <- app_assoc, !count_app.
    repeat split; lia.
  - intros [= <- <-]. destruct (Hm _ _ _ E1) as (evs & Ht & H1 & H2).
    exists evs; repeat split; [exact Ht | lia | lia].
Qed.

Lemma bounded_exec sql : bounded (exec sql) 0 0.
Proof.
  intros a a' o E. destruct (exec_cases _ _ _ _ E) as [(_ & -> & _)|(d & d' & out & _ & _ & -> & _)].
  - exists []; rewrite app_nil_r; auto.
  - exists [EvExec sql]; destruct a; simpl; auto.
Qed.

Lemma bounded_callLLM prompt :
  bounded (callLLM prompt) (if starts_with fix_header prompt then 1 else 0) 1.
Proof.
  intros a a' o. rewrite callLLM_spec.
  destruct (request_of (settings a) prompt) as [[label r]|] eqn:Er.
  - intros [= <- _]. exists [EvFetch r]. split; [destruct a; reflexivity|].
    unfold count; cbn [filter is_repair_call is_fetch].
    rewrite (request_of_prompt _ _ _ _ Er).
    destruct (starts_with fix_header prompt); simpl; lia.
  - intros [= <- _]. exists []; rewrite app_nil_r.
    destruct (starts_with fix_header prompt); (split; [reflexivity | unfold count; simpl; lia]).
Qed.

Lemma bounded_schema_tables rows : forall schema, bounded (schema_tables rows schema) 0 0.
Proof.
  induction rows as [|row rows IH]; intros schema; cbn [schema_tables].
  - apply bounded_ret.
  - apply (bounded_bind _ _ 0 0 0 0); [apply bounded_exec|]; intros columns.
    apply (bounded_bind _ _ 0 0 0 0); [apply bounded_exec|]; intros fks.
    apply IH.
Qed.

Lemma bounded_getSchemaForLLM : bounded getSchemaForLLM 0 0.
Proof.
  unfold getSchemaForLLM.
  apply (bounded_bind _ _ 0 0 0 0); [apply bounded_get|]; intros a.
  destruct (db a); [|apply bounded_ret].
  apply (bounded_bind _ _ 0 0 0 0); [apply bounded_exec|]; intros tables.
  destruct (hd_error tables); [apply bounded_schema_tables | apply bounded_ret].
Qed.

Lemma bounded_append_html fs : bounded (append_html fs) 0 0.
Proof. apply bounded_modify; intros a; reflexivity. Qed.

Lemma generate_prompt_not_repair q schema :
  starts_with fix_header (generate_prompt q schema) = false.
Proof. reflexivity. Qed.

Lemma explain_prompt_not_repair q sql r :
  starts_with fix_header (explain_prompt q sql r) = false.
Proof. reflexivity. Qed.

Lemma fix_prompt_is_repair sql message schema :
  starts_with fix_header (fix_prompt sql message schema) = true.
Proof. reflexivity. Qed.

Lemma bounded_run_fixed fixedSQL : bounded (run_fixed fixedSQL) 0 0.
Proof.
  unfold run_fixed. apply (bounded_try_catch _ _ 0 0 0 0).
  - apply (bounded_bind _ _ 0 0 0 0); [apply bounded_exec|]; intros rs.
    destruct rs; [apply bounded_ret | apply bounded_append_html].
  - intros e; apply bounded_append_html.
Qed.

Lemma bounded_on_sql_error sqlQuery schema sqlError :
  bounded (on_sql_error sqlQuery schema sqlError) 1 1.
Proof.
  unfold on_sql_error.
  apply (bounded_bind _ _ 0 0 1 1); [apply bounded_append_html|]; intros _.
  apply (bounded_bind _ _ 1 1 0 0).
  - unfold fixSQL. pose proof (bounded_callLLM (fix_prompt sqlQuery sqlError schema)) as H.
    rewrite fix_prompt_is_repair in H; exact H.
  - intros fixedSQL. destruct (negb (is_empty fixedSQL) && negb (str_eqb fixedSQL sqlQuery)).
    + apply (bounded_bind _ _ 0 0 0 0); [apply bounded_append_html|]; intros _.
      apply bounded_run_fixed.
    + apply bounded_ret.
Qed.

Lemma bounded_run_generated query sqlQuery :
  bounded (run_generated query sqlQuery) 0 1.
Proof.
  unfold run_generated.
  apply (bounded_bind _ _ 0 0 0 1); [apply bounded_exec|]; intros rs.
  destruct rs as [|r rs].
  - apply bounded_weaken with (n := 0) (k := 0); [apply bounded_append_html | lia | lia].
  - apply (bounded_bind _ _ 0 0 0 1); [apply bounded_append_html|]; intros _.
    apply (bounded_bind _ _ 0 1 0 0).
    + unfold getExplanation. pose proof (bounded_callLLM (explain_prompt query sqlQuery r)) as H.
      rewrite explain_prompt_not_repair in H; exact H.
    + intros e; apply bounded_append_html.
Qed.

Lemma bounded_pipeline query : bounded (pipeline query) 1 3.
Proof.
  unfold pipeline.
  apply (bounded_bind _ _ 0 0 1 3); [apply bounded_getSchemaForLLM|]; intros schema.
  apply (bounded_bind _ _ 0 1 1 2).
  { unfold generateSQL. pose proof (bounded_callLLM (generate_prompt query schema)) as H.
    rewrite generate_prompt_not_repair in H; exact H. }
  intros sqlQuery.
  apply (bounded_bind _ _ 0 0 1 2); [apply bounded_modify; reflexivity|]; intros _.
  apply (bounded_bind _ _ 1 2 0 0).
  { apply (bounded_try_catch _ _ 0 1 1 1);
      [apply bounded_run_generated | intros e; apply bounded_on_sql_error]. }
  intros _.
  apply (bounded_bind _ _ 0 0 0 0); [apply bounded_get|]; intros a.
  apply (bounded_bind _ _ 0 0 0 0); [apply bounded_modify; reflexivity|]; intros _.
  apply bounded_modify; reflexivity.
Qed.

Lemma bounded_executeNLQuery : bounded executeNLQuery 1 3.
Proof.
  unfold executeNLQuery.
  apply (bounded_bind _ _ 0 0 1 3); [apply bounded_get|]; intros a.
  destruct (is_empty (trim (nlInput a))).
  { apply bounded_weaken with (n := 0) (k := 0); [apply bounded_modify; reflexivity | lia | lia]. }
  destruct (db a).
  2:{ apply bounded_weaken with (n := 0) (k := 0); [apply bounded_modify; reflexivity | lia | lia]. }
  destruct (is_empty (apiKey (settings a))).
  { apply bounded_weaken with (n := 0) (k := 0); [|lia|lia].
    apply (bounded_bind _ _ 0 0 0 0); [apply bounded_modify; reflexivity|]; intros _.
    apply bounded_modify; reflexivity. }
  apply (bounded_bind _ _ 0 0 1 3); [apply bounded_modify; reflexivity|]; intros _.
  apply (bounded_try_catch _ _ 1 3 0 0); [apply bounded_pipeline|]; intros e.
  apply bounded_modify; reflexivity.
Qed.

(** *** The repair branch *)

(** The run of [executeNLQuery] when the generated statement fails: the
    trace, the markup and the database it ends with, by the answer [outf] of
    the network to the repair request. *)
Lemma repair_branch (a a1 a2 : State) query schema sqlQuery d2 d3 message label r outf n3 :
  trim (nlInput a) = query -> query <> [] -> db a <> None ->
  apiKey (settings a) <> [] ->
  getSchemaForLLM (set_nlResults [Spinner] a) = (a1, Return schema) ->
  generateSQL query schema a1 = (a2, Return sqlQuery) ->
  db a2 = Some d2 -> db_exec d2 sqlQuery = (d3, ExecError message) ->
  request_of (settings a2) (fix_prompt sqlQuery message schema) = Some (label, r) ->
  net_fetch (net a2) r = (n3, outf) ->
  exists a',
    executeNLQuery a = (a', Return tt)
    /\ match completion_of label outf with
       | Throw e =>
         trace a' = trace a2 ++ [EvExec sqlQuery; EvFetch r]
         /\ nlResults a' = [AlertError (js "Error: " ++ e)]
         /\ db a' = Some d3
       | Return fixedSQL =>
         if worth_running fixedSQL sqlQuery then
           trace a' = trace a2 ++ [EvExec sqlQuery; EvFetch r; EvExec fixedSQL]
           /\ nlResults a' = repair_notice sqlQuery message
                             ++ FixedSQLCard fixedSQL :: report (snd (db_exec d3 fixedSQL))
           /\ db a' = Some (fst (db_exec d3 fixedSQL))
         else
           trace a' = trace a2 ++ [EvExec sqlQuery; EvFetch r]
           /\ nlResults a' = repair_notice sqlQuery message
           /\ db a' = Some d3
       end.
Proof.
  intros Hq Hne Hdb Hkey H1 H2 Hd2 He Hr Hf.
  unfold executeNLQuery, bind at 1, get. rewrite Hq.
  destruct query as [|c q]; [contradiction Hne; reflexivity|].
  destruct (db a) as [d|]; [|contradiction Hdb; reflexivity].
  destruct (apiKey (settings a)) as [|k ks]; [contradiction Hkey; reflexivity|].
  cbn [is_empty]. unfold bind at 1, modify at 1, try_catch at 1.
  unfold pipeline, bind at 1. rewrite H1. unfold bind at 1. rewrite H2.
  unfold bind at 1, modify at 1. unfold bind at 1, try_catch at 1.
  unfold run_generated, bind at 1.
  rewrite (exec_error (set_html [GeneratedSQLCard sqlQuery] a2) d2 d3 _ message);
    [|destruct a2; exact Hd2 | exact He].
  unfold on_sql_error, bind at 1, append_html at 1, modify at 1.
  unfold bind at 1, fixSQL. rewrite callLLM_spec.
  replace (settings _) with (settings a2) by (destruct a2; reflexivity).
  rewrite Hr.
  replace (net_fetch (net _) r) with (n3, outf) by (destruct a2; symmetry; exact Hf).
  cbn [fst snd].
  destruct (completion_of label outf) as [e|fixedSQL].
  { eexists; split; [reflexivity|]. destruct a2; simpl. rewrite <- app_assoc. auto. }
  fold (worth_running fixedSQL sqlQuery).
  destruct (worth_running fixedSQL sqlQuery).
  - unfold bind at 1, append_html at 1, modify at 1. unfold run_fixed, try_catch at 1, bind at 1.
    unfold exec at 1.
    replace (db _) with (Some d3) by (destruct a2; reflexivity).
    destruct (db_exec d3 fixedSQL) as [d4 [m|[|r0 rs]]]; cbn [fst snd report];
      (eexists; split; [reflexivity|]); destruct a2; simpl;
      rewrite <- !app_assoc; auto.
  - eexists; split; [reflexivity|]. destruct a2; simpl. rewrite <- app_assoc. auto.
Qed.

Lemma worth_running_true fixedSQL sqlQuery :
  worth_running fixedSQL sqlQuery = true <-> fixedSQL <> [] /\ fixedSQL <> sqlQuery.
Proof.
  unfold worth_running. rewrite andb_true_iff, !negb_true_iff. split.
  - intros [H1 H2]; split.
    + intros ->; discriminate.
    + intros ->; rewrite str_eqb_refl in H2; discriminate.
  - intros [H1 H2]; split.
    + destruct fixedSQL; [contradiction H1|]; reflexivity.
    + destruct (str_eqb fixedSQL sqlQuery) eqn:E; [|reflexivity].
      apply str_eqb_eq in E; contradiction.
Qed.

Lemma request_of_any st prompt prompt' label r :
  request_of st prompt = Some (label, r) ->
  exists r', request_of st prompt' = Some (label, r').
Proof.
  unfold request_of.
  repeat match goal with |- context [if ?b then _ else _] => destruct b end;
    intros [= <- <-]; eexists; reflexivity.
Qed.

Lemma callLLM_returns prompt (a a' : State) text :
  callLLM prompt a = (a', Return text) ->
  settings a' = settings a
  /\ exists label r, request_of (settings a) prompt = Some (label, r).
Proof.
  rewrite callLLM_spec.
  destruct (request_of (settings a) prompt) as [[label r]|]; [|discriminate].
  intros [= <- _]; split; [destruct a; reflexivity | eauto].
Qed.

(** C1 (amended). When the generated statement fails and the repair call
    answers, the repaired statement is executed only if it is non-empty and
    differs from the failing one. A repair identical to the original (or
    empty) is not executed again: the run ends with the repair call, showing
    the original error. A repair that differs is executed exactly once,
    right after the repair call, and the markup reports what that execution
    gave: its first result, nothing when it returned no result, or its
    error. *)
Theorem C1_repair_executed_only_if_changed
        (a a1 a2 : State) query schema sqlQuery d2 d3 message label r n3 st raw :
  trim (nlInput a) = query -> query <> [] -> db a <> None ->
  apiKey (settings a) <> [] ->
  getSchemaForLLM (set_nlResults [Spinner] a) = (a1, Return schema) ->
  generateSQL query schema a1 = (a2, Return sqlQuery) ->
  db a2 = Some d2 -> db_exec d2 sqlQuery = (d3, ExecError message) ->
  request_of (settings a2) (fix_prompt sqlQuery message schema) = Some (label, r) ->
  net_fetch (net a2) r = (n3, Response true st (Completion raw)) ->
  exists a',
    executeNLQuery a = (a', Return tt)
    /\ (Clean.cleanLLMResponse raw = sqlQuery \/ Clean.cleanLLMResponse raw = [] ->
        trace a' = trace a2 ++ [EvExec sqlQuery; EvFetch r]
        /\ nlResults a' = repair_notice sqlQuery message)
    /\ (Clean.cleanLLMResponse raw <> sqlQuery -> Clean.cleanLLMResponse raw <> [] ->
        trace a' = trace a2 ++ [EvExec sqlQuery; EvFetch r;
                                EvExec (Clean.cleanLLMResponse raw)]
        /\ nlResults a'
           = repair_notice sqlQuery message
             ++ FixedSQLCard (Clean.cleanLLMResponse raw)
                :: report (snd (db_exec d3 (Clean.cleanLLMResponse raw)))).
Proof.
  intros Hq Hne Hdb Hkey H1 H2 Hd2 He Hr Hf.
  destruct (repair_branch a a1 a2 query schema sqlQuery d2 d3 message label r _ n3
              Hq Hne Hdb Hkey H1 H2 Hd2 He Hr Hf) as (a' & Hrun & Hcase).
  exists a'; split; [exact Hrun|].
  cbn [completion_of] in Hcase.
  destruct (worth_running (Clean.cleanLLMResponse raw) sqlQuery) eqn:Ew.
  - apply worth_running_true in Ew as [Hn1 Hn2]. split.
    + intros [H|H]; contradiction.
    + intros _ _. destruct Hcase as (Ht & Hres & _); auto.
  - split.
    + intros _. destruct Hcase as (Ht & Hres & _); auto.
    + intros Hn1 Hn2.
      assert (worth_running (Clean.cleanLLMResponse raw) sqlQuery = true)
        by (apply worth_running_true; auto).
      congruence.
Qed.

(** C3. No run of [executeNLQuery] makes more than one repair call (nor
    more than three network calls). When the generated statement fails, the
    engine call is followed by exactly one repair call and then by at most
    one more engine call, after which the run is over, whatever that call
    gave. *)
Theorem C3_at_most_one_repair :
  (forall (a a' : State) o, executeNLQuery a = (a', o) ->
     exists evs, trace a' = trace a ++ evs
                 /\ count is_repair_call evs <= 1
                 /\ count is_fetch evs <= 3)
  /\ (forall (a a1 a2 : State) query schema sqlQuery d2 d3 message,
        trim (nlInput a) = query -> query <> [] -> db a <> None ->
        apiKey (settings a) <> [] ->
        getSchemaForLLM (set_nlResults [Spinner] a) = (a1, Return schema) ->
        generateSQL query schema a1 = (a2, Return sqlQuery) ->
        db a2 = Some d2 -> db_exec d2 sqlQuery = (d3, ExecError message) ->
        exists a' r tail,
          executeNLQuery a = (a', Return tt)
          /\ trace a' = trace a2 ++ [EvExec sqlQuery; EvFetch r] ++ tail
          /\ request_prompt r = fix_prompt sqlQuery message schema
          /\ (tail = [] \/ exists fixedSQL, tail = [EvExec fixedSQL])
          /\ count is_repair_call ([EvExec sqlQuery; EvFetch r] ++ tail) = 1).
Proof.
  split; [exact bounded_executeNLQuery|].
  intros a a1 a2 query schema sqlQuery d2 d3 message Hq Hne Hdb Hkey H1 H2 Hd2 He.
  destruct (callLLM_returns _ _ _ _ H2) as (Hst & label & r0 & Hr0).
  destruct (request_of_any _ _ (fix_prompt sqlQuery message schema) _ _ Hr0)
    as (r & Hr).
  rewrite <- Hst in Hr.
  destruct (net_fetch (net a2) r) as [n3 outf] eqn:Hf.
  destruct (repair_branch a a1 a2 query schema sqlQuery d2 d3 message label r outf n3
              Hq Hne Hdb Hkey H1 H2 Hd2 He Hr Hf) as (a' & Hrun & Hcase).
  pose proof (request_of_prompt _ _ _ _ Hr) as Hp.
  assert (Hone : forall tail, (tail = [] \/ exists f, tail = [EvExec f]) ->
            count is_repair_call ([EvExec sqlQuery; EvFetch r] ++ tail) = 1).
  { intros tail Ht. unfold count. cbn [app filter is_repair_call].
    rewrite Hp, fix_prompt_is_repair.
    destruct Ht as [->|(f & ->)]; reflexivity. }
  exists a', r.
  destruct (completion_of label outf) as [e|fixedSQL].
  - exists []. destruct Hcase as (Ht & _).
    repeat split;
      [exact Hrun | rewrite app_nil_r; exact Ht | exact Hp | auto | apply Hone; auto].
  - destruct (worth_running fixedSQL sqlQuery).
    + exists [EvExec fixedSQL]. destruct Hcase as (Ht & _).
      repeat split; [exact Hrun | exact Ht | exact Hp | eauto | apply Hone; eauto].
    + exists []. destruct Hcase as (Ht & _).
      repeat split;
        [exact Hrun | rewrite app_nil_r; exact Ht | exact Hp | auto | apply Hone; auto].
Qed.

(** *** The SQL editor *)

Lemma statements_nonblank sql :
  Forall (fun s => is_empty (trim s) = false) (statements_of sql).
Proof.
  apply Forall_forall; intros s Hin. unfold statements_of in Hin.
  apply filter_In in Hin as [_ H]. apply negb_true_iff in H; exact H.
Qed.

Lemma run_statements_chain d statements outs d' :
  Chain d statements outs d' ->
  Forall (fun s => is_empty (trim s) = false) statements ->
  forall (a : State) i acc, db a = Some d ->
    run_statements statements i acc a
    = (set_trace (trace a ++ map EvExec statements) (set_db (Some d') a),
       Return (acc ++ contributions i statements outs)).
Proof.
  induction 1 as [d|d d1 d2 st sts rs outs He _ IH]; intros Hall a i acc Hd.
  - cbn. rewrite !app_nil_r. destruct a; simpl in *; subst; reflexivity.
  - inversion Hall as [|? ? Hst Hsts]; subst.
    cbn [run_statements]. rewrite Hst. unfold bind.
    rewrite (exec_ok a d d1 st rs Hd He).
    set (a1 := set_trace _ (set_db (Some d1) a)).
    assert (Hd1 : db a1 = Some d1) by reflexivity.
    assert (Ha1 : forall _ : unit, set_trace (trace a1 ++ map EvExec sts) (set_db (Some d2) a1)
                          = set_trace (trace a ++ map EvExec (st :: sts)) (set_db (Some d2) a)).
    { intros _. subst a1. destruct a; simpl. rewrite <- app_assoc. reflexivity. }
    destruct rs as [|r rs'].
    + rewrite (IH Hsts a1 (S i) acc Hd1), (Ha1 tt). reflexivity.
    + rewrite (IH Hsts a1 (S i) _ Hd1), (Ha1 tt).
      cbn [contributions]. rewrite <- app_assoc. reflexivity.
Qed.

Lemma contributions_nil d statements outs d' :
  Chain d statements outs d' ->
  forall i, contributions i statements outs = [] <-> Forall (fun rs => rs = []) outs.
Proof.
  induction 1 as [d|d d1 d2 st sts rs outs He _ IH]; intros i.
  - split; [constructor | reflexivity].
  - cbn [contributions]. destruct rs as [|r rs'].
    + rewrite IH. split; [intros H; constructor; auto | intros H; inversion H; auto].
    + split; [discriminate | intros H; inversion H; discriminate].
Qed.


Lemma runSQL_chain (a : State) d d' outs :
  db a = Some d -> trim (sqlEditor a) <> [] ->
  Chain d (statements_of (trim (sqlEditor a))) outs d' ->
  exists a',
    runSQL a = (a', Return tt)
    /\ trace a' = trace a ++ map EvExec (statements_of (trim (sqlEditor a)))
    /\ db a' = Some d'
    /\ sqlResults a'
       = shown (contributions 0 (statements_of (trim (sqlEditor a))) outs).
Proof.
  intros Hd Hne Hc. unfold runSQL, bind at 1, get.
  destruct (trim (sqlEditor a)) as [|c sql] eqn:Es; [contradiction Hne; reflexivity|].
  cbn [is_empty]. rewrite Hd.
  unfold bind at 1, modify at 1, try_catch, bind.
  rewrite (run_statements_chain _ _ _ _ Hc (statements_nonblank _) (set_sqlResults [] a) 0 []);
    [|destruct a; exact Hd].
  cbn [app]. unfold shown.
  destruct (contributions 0 (statements_of (c :: sql)) outs);
    (eexists; split; [reflexivity|]); destruct a; simpl; auto.
Qed.


(** *** Rows or no result *)

Lemma run_generated_spec (a : State) d d' question sql results :
  db a = Some d -> db_exec d sql = (d', ExecOk results) ->
  exists a' o,
    run_generated question sql a = (a', o)
    /\ match results with
       | r :: _ =>
         html a' = html a ++ [ResultsTable r]
         \/ exists e, html a' = html a ++ [ResultsTable r; AnswerCard e]
       | [] =>
         o = Return tt
         /\ html a' = html a ++ [AlertWarning (js "Query returned no results")]
         /\ trace a' = trace a ++ [EvExec sql]
       end.
Proof.
  intros Hd He. unfold run_generated, bind at 1.
  rewrite (exec_ok a d d' sql results Hd He).
  destruct results as [|r rest].
  - eexists _, _; split; [reflexivity|]. destruct a; simpl; auto.
  - unfold bind at 1, append_html at 1, modify at 1.
    unfold bind at 1, getExplanation. rewrite callLLM_spec.
    match goal with |- context [request_of ?st ?p] =>
      destruct (request_of st p) as [[label rq]|]
    end.
    + match goal with |- context [completion_of ?l ?x] =>
        destruct (completion_of l x) as [e|text]
      end.
      * eexists _, _; split; [reflexivity|]. left. destruct a; reflexivity.
      * eexists _, _; split; [reflexivity|]. right. exists text.
        destruct a; simpl. rewrite <- app_assoc. reflexivity.
    + eexists _, _; split; [reflexivity|]. left. destruct a; reflexivity.
Qed.

Lemma shown_empty_iff (l : list StatementResult) :
  shown l = [AlertSuccess no_results_message] <-> l = [].
Proof.
  split; [|intros ->; reflexivity].
  destruct l as [|e l]; [reflexivity|].
  unfold shown, render_all. cbn [flat_map].
  destruct (1 <? length (e :: l))%nat; discriminate.
Qed.

(** C6. Whatever the first result object the engine returns for the
    generated statement, [executeNLQuery] shows it as a results table, also
    when it has no rows; the notice "Query returned no results" is shown
    exactly when the engine returned no result object. In the SQL editor the
    notice "no results to display" is shown exactly when no statement of the
    submission returned a result object, as for [CREATE TABLE t(x);] alone. *)
Theorem C6_rows_unless_no_result_object :
  (forall (a : State) d d' question sql results,
     db a = Some d -> db_exec d sql = (d', ExecOk results) ->
     exists a' o,
       run_generated question sql a = (a', o)
       /\ match results with
          | r :: _ =>
            html a' = html a ++ [ResultsTable r]
            \/ exists e, html a' = html a ++ [ResultsTable r; AnswerCard e]
          | [] =>
            o = Return tt
            /\ html a' = html a ++ [AlertWarning (js "Query returned no results")]
            /\ trace a' = trace a ++ [EvExec sql]
          end)
  /\ (forall (a : State) d d' outs,
        db a = Some d -> trim (sqlEditor a) <> [] ->
        Chain d (statements_of (trim (sqlEditor a))) outs d' ->
        exists a',
          runSQL a = (a', Return tt)
          /\ (sqlResults a' = [AlertSuccess no_results_message]
              <-> Forall (fun results => results = []) outs)
          /\ (Exists (fun results => results <> []) outs ->
              sqlResults a'
              = render_all (contributions 0 (statements_of (trim (sqlEditor a))) outs)))
  /\ (forall (a : State) d d',
        db a = Some d -> sqlEditor a = js "CREATE TABLE t(x);" ->
        db_exec d (js "CREATE TABLE t(x)") = (d', ExecOk []) ->
        exists a',
          runSQL a = (a', Return tt)
          /\ sqlResults a' = [AlertSuccess no_results_message]).
Proof.
  split; [exact run_generated_spec|]. split.
  - intros a d d' outs Hd Hne Hc.
    destruct (runSQL_chain a d d' outs Hd Hne Hc) as (a' & Hrun & _ & _ & Hs).
    exists a'. split; [exact Hrun|]. rewrite Hs. split.
    + rewrite shown_empty_iff. apply (contributions_nil _ _ _ _ Hc).
    + intros Hex. unfold shown.
      destruct (contributions 0 (statements_of (trim (sqlEditor a))) outs) eqn:E;
        [|reflexivity].
      apply (contributions_nil _ _ _ _ Hc) in E.
      apply Exists_exists in Hex as (rs & Hin & Hrs).
      rewrite Forall_forall in E. contradiction (Hrs (E rs Hin)).
  - intros a d d' Hd Hed He.
    assert (Hst : statements_of (trim (sqlEditor a)) = [js "CREATE TABLE t(x)"])
      by (rewrite Hed; vm_compute; reflexivity).
    assert (Hc : Chain d (statements_of (trim (sqlEditor a))) [[]] d').
    { rewrite Hst. econstructor; [exact He | constructor]. }
    assert (Hne : trim (sqlEditor a) <> []) by (rewrite Hed; vm_compute; discriminate).
    destruct (runSQL_chain a d d' _ Hd Hne Hc) as (a' & Hrun & _ & _ & Hs).
    exists a'. rewrite Hst in Hs. auto.
Qed.

End Pipeline.

(** ** The properties on the small platform *)

Section OnToy.
Import Toy.

(** Closed goals are settled by running the model, one conjunct at a time. *)
Ltac runs :=
  repeat match goal with |- _ /\ _ => split end; vm_compute; reflexivity.

(** C1, as stated, fails: the repair call returns the failing statement
    itself and the statement is not executed again. It is executed once in
    the whole run, the repair call is the last event of the run, and the
    markup shows the original error only. *)
Lemma C1_unchanged_repair_counterexample :
  snd (executeNLQuery unchanged_repair) = Return tt
  /\ count (executes missing) (trace (fst (executeNLQuery unchanged_repair))) = 1
  /\ map is_exec (trace (fst (executeNLQuery unchanged_repair)))
     = [true; true; true; false; true; false]
  /\ count is_repair_call (trace (fst (executeNLQuery unchanged_repair))) = 1
  /\ nlResults (fst (executeNLQuery unchanged_repair))
     = repair_notice missing (js "no such table: missing").
Proof. runs. Qed.

Lemma C1_repair_executed_only_if_changed_witness :
  exists a',
    executeNLQuery unchanged_repair = (a', Return tt)
    /\ nlResults a' = repair_notice missing (js "no such table: missing").
Proof.
  edestruct (C1_repair_executed_only_if_changed unchanged_repair)
    as (a' & Hrun & Hsame & _).
  - reflexivity.
  - vm_compute; discriminate.
  - discriminate.
  - discriminate.
  - vm_compute; reflexivity.
  - vm_compute; reflexivity.
  - reflexivity.
  - vm_compute; reflexivity.
  - vm_compute; reflexivity.
  - vm_compute; reflexivity.
  - exists a'. split; [exact Hrun|].
    destruct Hsame as [_ Hres]; [left; vm_compute; reflexivity|].
    exact Hres.
Defined.

(** C2, on a run where it fails. The generated statement returns a row;
    the explain request then fails. The handler meant for SQL errors catches
    that failure: a repair call is made with the provider's error as the SQL
    error. When the repair call fails too, the results element shows this
    last error alone, without the generated statement and its rows; when it
    answers, the repaired statement is executed. *)
Theorem C2_explain_failure_reaches_sql_handler :
  toy_exec [js "users"] (js "SELECT 1") = ([js "users"], ExecOk [one_row 1])
  /\ map is_exec (trace (fst (executeNLQuery explain_fails)))
     = [true; true; true; false; true; false; false]
  /\ count is_repair_call (trace (fst (executeNLQuery explain_fails))) = 1
  /\ nlResults (fst (executeNLQuery explain_fails))
     = [AlertError (js "Error: Failed to fetch")]
  /\ nlResults (fst (executeNLQuery explain_fails_once))
     = [GeneratedSQLCard (js "SELECT 1");
        ResultsTable (one_row 1);
        AlertError (js "SQL Error: OpenAI API error: Service Unavailable");
        AlertWarning (js "Attempting to fix SQL...");
        FixedSQLCard (js "SELECT 2");
        ResultsTable (one_row 2)]
  /\ count is_repair_call (trace (fst (executeNLQuery explain_fails_once))) = 1
  /\ count (executes (js "SELECT 2")) (trace (fst (executeNLQuery explain_fails_once))) = 1.
Proof. runs. Qed.

Lemma C3_at_most_one_repair_witness :
  exists a' r tail,
    executeNLQuery changed_repair = (a', Return tt)
    /\ (tail = [] \/ exists fixedSQL, tail = [EvExec fixedSQL])
    /\ count is_repair_call ([EvExec missing; EvFetch r] ++ tail) = 1.
Proof.
  edestruct (proj2 C3_at_most_one_repair changed_repair)
    as (a' & r & tail & Hrun & _ & _ & Htail & Hone).
  - reflexivity.
  - vm_compute; discriminate.
  - discriminate.
  - discriminate.
  - vm_compute; reflexivity.
  - vm_compute; reflexivity.
  - reflexivity.
  - vm_compute; reflexivity.
  - exists a', r, tail. split; [exact Hrun|]. split; [exact Htail | exact Hone].
Defined.

Lemma C4_preconditions_no_work_witness :
  exists message a',
    executeNLQuery blank_question = (a', Return tt)
    /\ alerts a' = [(message, js "warning")]
    /\ trace a' = [].
Proof.
  destruct (C4_preconditions_no_work blank_question) as (m & a' & Hrun & _ & Ha & Ht & _).
  - left; reflexivity.
  - exists m, a'. split; [exact Hrun|]. split; [exact Ha | exact Ht].
Defined.

Lemma C6_rows_unless_no_result_object_witness :
  (exists a' o,
     run_generated (js "who") (js "SELECT id FROM users WHERE 0") two_tables = (a', o)
     /\ o = Return tt)
  /\ (exists a', runSQL create_only = (a', Return tt)
                 /\ sqlResults a' = [AlertSuccess no_results_message]).
Proof.
  split.
  - edestruct (proj1 C6_rows_unless_no_result_object two_tables
                 [js "users"; js "orders"] [js "users"; js "orders"]
                 (js "who") (js "SELECT id FROM users WHERE 0") [])
      as (a' & o & Hrun & Ho & _).
    + reflexivity.
    + vm_compute; reflexivity.
    + exists a', o; split; [exact Hrun | exact Ho].
  - apply (proj2 (proj2 C6_rows_unless_no_result_object) create_only
             [js "users"] [js "users"; js "t"]).
    + reflexivity.
    + reflexivity.
    + vm_compute; reflexivity.
Defined.


(** C8, as stated, fails on a table for which the column query returns no
    row: its block is the header line and the blank line, without the
    [Columns:] line of the rendering the specification describes. *)
Lemma C8_table_without_columns_counterexample :
  snd (getSchemaForLLM bare_table) = Return (js "Table: t" ++ nl ++ nl)
  /\ Spec.toPromptText [Spec.mkTable (js "t") [] []]
     = js "Table: t" ++ nl ++ js "Columns:" ++ nl ++ nl
  /\ snd (getSchemaForLLM bare_table)
     <> Return (Spec.toPromptText [Spec.mkTable (js "t") [] []]).
Proof.
  split; [vm_compute; reflexivity|]. split; [vm_compute; reflexivity|].
  vm_compute. intros H; discriminate H.
Qed.

Lemma C8_schema_blocks_witness :
  exists a',
    getSchemaForLLM two_tables
    = (a', Return (Spec.toPromptText
                     [Spec.mkTable (js "users")
                        [Spec.mkColumn (js "id") (js "INTEGER") true true;
                         Spec.mkColumn (js "name") (js "TEXT") false false] [];
                      Spec.mkTable (js "orders")
                        [Spec.mkColumn (js "id") (js "INTEGER") true false;
                         Spec.mkColumn (js "user_id") (js "INTEGER") false true]
                        [Spec.mkForeignKey (js "user_id") (js "users") (js "id")]])).
Proof.
  destruct (C8_schema_blocks two_tables
              [js "users"; js "orders"] [js "users"; js "orders"] [js "users"; js "orders"]
              (mkResult [js "name"] [[VStr (js "users")]; [VStr (js "orders")]]) []
              [mkAnswer (VStr (js "users")) (Some users_columns) None;
               mkAnswer (VStr (js "orders")) (Some orders_columns) (Some orders_fks)])
    as (a' & _ & _ & Hspec & _).
  - reflexivity.
  - vm_compute; reflexivity.
  - apply (Introspect_cons (P:=toy) _ [js "users"; js "orders"] [js "users"; js "orders"] _
             [VStr (js "users")] _ [users_columns] []);
      [vm_compute; reflexivity | vm_compute; reflexivity |].
    apply (Introspect_cons (P:=toy) _ [js "users"; js "orders"] [js "users"; js "orders"] _
             [VStr (js "orders")] _ [orders_columns] [orders_fks]);
      [vm_compute; reflexivity | vm_compute; reflexivity |].
    exact (Introspect_nil (P:=toy) _).
  - exists a'. rewrite Hspec.
    + vm_compute; reflexivity.
    + repeat constructor; discriminate.
Defined.

Lemma C9_explain_prompt_preview_witness :
  substring_of (join_values (P:=toy) (js ", ") [VNum 1%Z])
               (explain_prompt (P:=toy) (js "how many") (js "SELECT 1") (one_row 1)).
Proof.
  apply (proj1 (proj2 (proj2 (proj2 (proj2
           (C9_explain_prompt_preview (P:=toy)
              (js "how many") (js "SELECT 1") (one_row 1))))))).
  left; reflexivity.
Defined.

End OnToy.

(** ** Copying the generated statement to the editor *)

Section Unescape.

Lemma replace_chunks pat rep (E E' : N -> jsstring) (ok : N -> Prop) :
  (forall c rest, ok c ->
     replace_from pat rep (E c ++ rest) 0 = E' c ++ replace_from pat rep rest 0) ->
  forall s, Forall ok s -> replace_all pat rep (flat_map E s) = flat_map E' s.
Proof.
  intros Hchunk s Hs; unfold replace_all.
  induction Hs as [|c s Hc _ IH]; [reflexivity|].
  cbn [flat_map]. rewrite (Hchunk c _ Hc), IH. reflexivity.
Qed.

(** A code unit that is not the ampersand starts no entity. *)
Lemma replace_other pat rep c rest :
  c <> 38%N ->
  replace_from (38%N :: pat) rep (c :: rest) 0
  = c :: replace_from (38%N :: pat) rep rest 0.
Proof.
  intros Hc. cbn [replace_from starts_with].
  destruct (N.eqb_spec 38 c) as [E|_]; [congruence | reflexivity].
Qed.

Ltac chunk :=
  intros c rest _; unfold escape_some;
  destruct (N.eqb_spec c 38) as [->|H38]; [reflexivity|];
  destruct (N.eqb_spec c 60) as [->|H60]; [reflexivity|];
  destruct (N.eqb_spec c 62) as [->|H62]; [reflexivity|];
  apply (replace_other _ _ c rest H38).

Lemma unescape_steps s :
  unescape (flat_map (escape_some true true true) s) = s.
Proof.
  assert (Hall : Forall (fun _ : N => True) s) by (apply Forall_forall; auto).
  unfold unescape.
  rewrite (replace_chunks (js "&#39;") (js "'") (escape_some true true true)
             (escape_some true true true) (fun _ => True)); [|chunk|exact Hall].
  rewrite (replace_chunks (js "&quot;") dquote (escape_some true true true)
             (escape_some true true true) (fun _ => True)); [|chunk|exact Hall].
  rewrite (replace_chunks (js "&lt;") (js "<") (escape_some true true true)
             (escape_some true false true) (fun _ => True)); [|chunk|exact Hall].
  rewrite (replace_chunks (js "&gt;") (js ">") (escape_some true false true)
             (escape_some true false false) (fun _ => True)); [|chunk|exact Hall].
  rewrite (replace_chunks (js "&amp;") (js "&") (escape_some true false false)
             (escape_some false false false) (fun _ => True)); [|chunk|exact Hall].
  clear Hall. induction s as [|c s IH]; [reflexivity|].
  cbn [flat_map]. rewrite IH. unfold escape_some.
  destruct (c =? 38)%N; [reflexivity|].
  destruct (c =? 60)%N; [reflexivity|].
  destruct (c =? 62)%N; reflexivity.
Qed.

(** Apart from the no-break space, [copySQLToEditor] undoes [escapeHtml]. *)
Lemma unescape_escapeHtml_without_nbsp s :
  ~ In 160%N s -> unescape (escapeHtml s) = s.
Proof.
  intros Hs.
  replace (escapeHtml s) with (flat_map (escape_some true true true) s);
    [apply unescape_steps|].
  unfold escapeHtml. induction s as [|c s IH]; [reflexivity|].
  cbn [flat_map]. rewrite IH by (intros H; apply Hs; right; exact H).
  f_equal. unfold escape_some, escape_unit.
  destruct (c =? 38)%N; [reflexivity|].
  destruct (N.eqb_spec c 160) as [->|_]; [contradiction Hs; left; reflexivity|].
  reflexivity.
Qed.

End Unescape.

(** ** The button that calls [copySQLToEditor] *)

Section Buttons.
Import Button.

Lemma option_map_app (x : jsstring) (o : option jsstring) c :
  option_map (cons c) (option_map (app x) o) = option_map (app (c :: x)) o.
Proof. destruct o; reflexivity. Qed.

(** The parser reads back what [escapeHtml] wrote for one code unit. *)
Lemma attribute_unit c rest :
  survives_markup c = true ->
  attribute_from (escape_unit c ++ rest) 0 = option_map (cons c) (attribute_from rest 0).
Proof.
  intros Hc. unfold escape_unit.
  destruct (N.eqb_spec c 38) as [->|H38]; [reflexivity|].
  destruct (N.eqb_spec c 160) as [->|_]; [reflexivity|].
  destruct (N.eqb_spec c 60) as [->|_]; [reflexivity|].
  destruct (N.eqb_spec c 62) as [->|_]; [reflexivity|].
  cbn [app attribute_from]. apply N.eqb_neq in H38. rewrite H38, Hc. reflexivity.
Qed.

Lemma attribute_escapeHtml s rest :
  forallb survives_markup s = true ->
  attribute_from (escapeHtml s ++ rest) 0 = option_map (app s) (attribute_from rest 0).
Proof.
  unfold escapeHtml. induction s as [|c s IH]; intros Hs.
  - cbn [flat_map app]. destruct (attribute_from rest 0); reflexivity.
  - cbn [forallb] in Hs. apply andb_true_iff in Hs as [Hc Hs].
    cbn [flat_map]. rewrite <- app_assoc, (attribute_unit c _ Hc), (IH Hs).
    apply option_map_app.
Qed.

Lemma attribute_plain p rest :
  forallb (fun c => negb (c =? 38)%N && survives_markup c) p = true ->
  attribute_from (p ++ rest) 0 = option_map (app p) (attribute_from rest 0).
Proof.
  induction p as [|c p IH]; intros Hp.
  - cbn [app]. destruct (attribute_from rest 0); reflexivity.
  - cbn [forallb] in Hp. apply andb_true_iff in Hp as [Hc Hp].
    apply andb_true_iff in Hc as [H38 Hc]. apply negb_true_iff in H38.
    cbn [app attribute_from]. rewrite H38, Hc, (IH Hp). apply option_map_app.
Qed.

(** The value of the attribute is the call with the statement itself: the
    parser has undone [escapeHtml]. *)
Lemma attribute_value_onclick s :
  forallb survives_markup s = true ->
  attribute_value (onclick_markup s)
  = Some (js "app.copySQLToEditor('" ++ s ++ js "')").
Proof.
  intros Hs. unfold attribute_value, onclick_markup.
  rewrite attribute_plain by reflexivity.
  rewrite (attribute_escapeHtml s _ Hs). reflexivity.
Qed.

Lemma literal_body_closed s rest :
  forallb (fun c => negb (c =? 39)%N && negb (escape_or_line_end c)) s = true ->
  literal_body (s ++ 39%N :: rest) = Some (s, rest).
Proof.
  induction s as [|c s IH]; intros Hs.
  - reflexivity.
  - cbn [forallb] in Hs. apply andb_true_iff in Hs as [Hc Hs].
    apply andb_true_iff in Hc as [H39 Hc].
    apply negb_true_iff in H39. apply negb_true_iff in Hc.
    cbn [app literal_body]. rewrite H39, Hc, (IH Hs). reflexivity.
Qed.

Lemma handler_argument_call s :
  forallb (fun c => negb (c =? 39)%N && negb (escape_or_line_end c)) s = true ->
  handler_argument (js "app.copySQLToEditor('" ++ s ++ js "')") = Some s.
Proof.
  intros Hs. unfold handler_argument. rewrite strip_app_same.
  change (js "')") with (39%N :: js ")").
  rewrite (literal_body_closed s _ Hs). reflexivity.
Qed.

(** A click puts into the editor the statement with the entities of
    [copySQLToEditor] replaced in it: the chain works on the statement, not
    on the output of [escapeHtml]. *)
Lemma click_unescapes_statement s :
  stands_for_itself s = true -> click s = Some (unescape s).
Proof.
  unfold stands_for_itself. intros Hs. rewrite forallb_forall in Hs.
  assert (H1 : forallb survives_markup s = true).
  { apply forallb_forall. intros c Hc. specialize (Hs c Hc).
    apply andb_true_iff in Hs as [Hs _]. apply andb_true_iff in Hs as [Hs _]. exact Hs. }
  assert (H2 : forallb (fun c => negb (c =? 39)%N && negb (escape_or_line_end c)) s = true).
  { apply forallb_forall. intros c Hc. specialize (Hs c Hc).
    apply andb_true_iff in Hs as [Hs Hl]. apply andb_true_iff in Hs as [_ Hq].
    rewrite Hq, Hl. reflexivity. }
  unfold click. rewrite (attribute_value_onclick s H1), (handler_argument_call s H2).
  reflexivity.
Qed.

End Buttons.

(** C10, on a statement where it fails. The model answers [SELECT 2 &lt; 3]
    and the card of the generated statement shows it. The parser turns the
    [&amp;lt;] of the attribute back into [&lt;], the handler calls
    [copySQLToEditor] with the statement itself, and the chain of
    replacements turns the [&lt;] the statement holds into a less-than sign:
    the editor gets another text. A statement with a no-break space is
    copied as it is. *)
Theorem C10_copy_decodes_statement_twice :
  hd_error (nlResults (fst (executeNLQuery (P:=Toy.toy) Cases.reference_in_answer)))
  = Some (GeneratedSQLCard (js "SELECT 2 &lt; 3"))
  /\ Button.onclick_markup (js "SELECT 2 &lt; 3")
     = js "app.copySQLToEditor('SELECT 2 &amp;lt; 3')"
  /\ Button.attribute_value (Button.onclick_markup (js "SELECT 2 &lt; 3"))
     = Some (js "app.copySQLToEditor('SELECT 2 &lt; 3')")
  /\ Button.click (js "SELECT 2 &lt; 3") = Some (js "SELECT 2 < 3")
  /\ Button.click (js "SELECT 2 &lt; 3") <> Some (js "SELECT 2 &lt; 3")
  /\ Button.click (js "a &lt; b") = Some (js "a < b")
  /\ Button.click (js "SELECT 1 -- R&amp;D") = Some (js "SELECT 1 -- R&D")
  /\ Button.click (js "SELECT" ++ [160%N] ++ js "1") = Some (js "SELECT" ++ [160%N] ++ js "1").
Proof.
  repeat match goal with |- _ /\ _ => split end; try (vm_compute; reflexivity).
  vm_compute; intros H; discriminate H.
Qed.

(** ** Invariants of the two entry points *)

Section Invariants.
Context {P : Platform}.
Import Logic.

Lemma hoare_ret {A} I (x : A) : hoare I (ret x).
Proof. intros a a' o Ha [= <- _]; exact Ha. Qed.

Lemma hoare_throw {A} I message : hoare I (@throw P A message).
Proof. intros a a' o Ha [= <- _]; exact Ha. Qed.

Lemma hoare_get I : hoare I get.
Proof. intros a a' o Ha [= <- _]; exact Ha. Qed.

Lemma hoare_modify I f : (forall a, I a -> I (f a)) -> hoare I (modify f).
Proof. intros Hf a a' o Ha [= <- _]; auto. Qed.

Lemma hoare_bind {A B} I (m : M A) (k : A -> M B) :
  hoare I m -> (forall x, hoare I (k x)) -> hoare I (bind m k).
Proof.
  intros Hm Hk a a' o Ha. unfold bind.
  destruct (m a) as [a1 [e|x]] eqn:E.
  - intros [= <- _]; exact (Hm _ _ _ Ha E).
  - intros E2; exact (Hk x _ _ _ (Hm _ _ _ Ha E) E2).
Qed.

Lemma hoare_try_catch {A} I (m : M A) (h : jsstring -> M A) :
  hoare I m -> (forall e, hoare I (h e)) -> hoare I (try_catch m h).
Proof.
  intros Hm Hh a a' o Ha. unfold try_catch.
  destruct (m a) as [a1 [e|x]] eqn:E.
  - intros E2; exact (Hh e _ _ _ (Hm _ _ _ Ha E) E2).
  - intros [= <- _]; exact (Hm _ _ _ Ha E).
Qed.

Lemma hoare_exec I sql : stable_exec I -> hoare I (exec sql).
Proof.
  intros Hs a a' o Ha E.
  destruct (exec_cases _ _ _ _ E) as [(_ & -> & _)|(d & d' & out & _ & _ & -> & _)];
    [exact Ha | apply Hs; exact Ha].
Qed.

Lemma hoare_callLLM I prompt : stable_fetch I -> hoare I (callLLM prompt).
Proof.
  intros Hs a a' o Ha. rewrite callLLM_spec.
  destruct (request_of (settings a) prompt) as [[label r]|] eqn:Er.
  - intros [= <- _]. exact (Hs a label r _ prompt Ha Er).
  - intros [= <- _]; exact Ha.
Qed.

Lemma hoare_schema_tables I rows :
  stable_exec I -> forall schema, hoare I (schema_tables rows schema).
Proof.
  intros Hs. induction rows as [|row rows IH]; intros schema; cbn [schema_tables].
  - apply hoare_ret.
  - apply hoare_bind; [apply hoare_exec, Hs|]; intros columns.
    apply hoare_bind; [apply hoare_exec, Hs|]; intros fks. apply IH.
Qed.

Lemma hoare_getSchemaForLLM I : stable_exec I -> hoare I getSchemaForLLM.
Proof.
  intros Hs. unfold getSchemaForLLM.
  apply hoare_bind; [apply hoare_get|]; intros a.
  destruct (db a); [|apply hoare_ret].
  apply hoare_bind; [apply hoare_exec, Hs|]; intros tables.
  destruct (hd_error tables); [apply hoare_schema_tables, Hs | apply hoare_ret].
Qed.

Lemma hoare_append_html I fs :
  stable_append I -> ~ In Spinner fs -> hoare I (append_html fs).
Proof. intros Hs Hfs. apply hoare_modify. intros a Ha; apply Hs; assumption. Qed.

Ltac no_spinner := simpl; intuition discriminate.

(** The guarded block of [executeNLQuery]: the execution of the generated
    statement with its handler. *)
Lemma hoare_block I query sqlQuery schema :
  stable_exec I -> stable_fetch I -> stable_append I ->
  hoare I (try_catch (run_generated query sqlQuery) (on_sql_error sqlQuery schema)).
Proof.
  intros He Hf Ha. apply hoare_try_catch.
  - unfold run_generated.
    apply hoare_bind; [apply hoare_exec, He|]; intros results.
    destruct results as [|r rest].
    + apply hoare_append_html; [exact Ha | no_spinner].
    + apply hoare_bind; [apply hoare_append_html; [exact Ha | no_spinner]|]; intros _.
      apply hoare_bind; [apply hoare_callLLM, Hf|]; intros explanation.
      apply hoare_append_html; [exact Ha | no_spinner].
  - intros sqlError. unfold on_sql_error.
    apply hoare_bind; [apply hoare_append_html; [exact Ha | no_spinner]|]; intros _.
    apply hoare_bind; [apply hoare_callLLM, Hf|]; intros fixedSQL.
    destruct (negb (is_empty fixedSQL) && negb (str_eqb fixedSQL sqlQuery));
      [|apply hoare_ret].
    apply hoare_bind; [apply hoare_append_html; [exact Ha | no_spinner]|]; intros _.
    unfold run_fixed. apply hoare_try_catch.
    + apply hoare_bind; [apply hoare_exec, He|]; intros fixedResults.
      destruct fixedResults; [apply hoare_ret|].
      apply hoare_append_html; [exact Ha | no_spinner].
    + intros fixError. apply hoare_append_html; [exact Ha | no_spinner].
Qed.

Lemma hoare_pipeline I query :
  stable_exec I -> stable_fetch I -> stable_append I -> stable_page I ->
  hoare I (pipeline query).
Proof.
  intros He Hf Ha Hp. unfold pipeline.
  apply hoare_bind; [apply hoare_getSchemaForLLM, He|]; intros schema.
  apply hoare_bind; [apply hoare_callLLM, Hf|]; intros sqlQuery.
  apply hoare_bind; [apply hoare_modify; intros a Hi; apply (Hp a Hi)|]; intros _.
  apply hoare_bind; [apply hoare_block; assumption|]; intros _.
  apply hoare_bind; [apply hoare_get|]; intros a0.
  apply hoare_bind; [apply hoare_modify; intros a Hi; apply (Hp a Hi)|]; intros _.
  apply hoare_modify; intros a Hi; apply (Hp a Hi).
Qed.

Lemma hoare_executeNLQuery I :
  stable_exec I -> stable_fetch I -> stable_append I -> stable_page I ->
  hoare I executeNLQuery.
Proof.
  intros He Hf Ha Hp. unfold executeNLQuery.
  apply hoare_bind; [apply hoare_get|]; intros a0.
  destruct (is_empty (trim (nlInput a0))).
  { apply hoare_modify; intros a Hi; apply (Hp a Hi). }
  destruct (db a0).
  2:{ apply hoare_modify; intros a Hi; apply (Hp a Hi). }
  destruct (is_empty (apiKey (settings a0))).
  { apply hoare_bind; [apply hoare_modify; intros a Hi; apply (Hp a Hi)|]; intros _.
    apply hoare_modify; intros a Hi; apply (Hp a Hi). }
  apply hoare_bind; [apply hoare_modify; intros a Hi; apply (Hp a Hi)|]; intros _.
  apply hoare_try_catch; [apply hoare_pipeline; assumption|]; intros e.
  apply hoare_modify; intros a Hi; apply (Hp a Hi).
Qed.

Lemma hoare_run_statements I statements :
  stable_exec I -> forall i acc, hoare I (run_statements statements i acc).
Proof.
  intros He. induction statements as [|st sts IH]; intros i acc; cbn [run_statements].
  - apply hoare_ret.
  - destruct (is_empty (trim st)); [apply IH|].
    apply hoare_bind; [apply hoare_exec, He|]; intros results.
    destruct results; apply IH.
Qed.

Lemma hoare_runSQL I : stable_exec I -> stable_editor I -> hoare I runSQL.
Proof.
  intros He Hp. unfold runSQL.
  apply hoare_bind; [apply hoare_get|]; intros a0.
  destruct (is_empty (trim (sqlEditor a0))).
  { apply hoare_modify; intros a Hi; apply (Hp a Hi). }
  destruct (db a0).
  2:{ apply hoare_modify; intros a Hi; apply (Hp a Hi). }
  apply hoare_bind; [apply hoare_modify; intros a Hi; apply (Hp a Hi)|]; intros _.
  apply hoare_try_catch.
  - apply hoare_bind; [apply hoare_run_statements, He|]; intros allResults.
    destruct allResults; apply hoare_modify; intros a Hi; apply (Hp a Hi).
  - intros e. apply hoare_modify; intros a Hi; apply (Hp a Hi).
Qed.

(** *** Stable invariants *)

Lemma logs_start Q (a : State) : logs Q (trace a) a.
Proof. exists []; rewrite app_nil_r; auto. Qed.

Lemma logs_more Q before (a b : State) e :
  logs Q before a -> trace b = trace a ++ [e] -> Q e -> logs Q before b.
Proof.
  intros (evs & Ht & Hall) Hb He. exists (evs ++ [e]).
  rewrite Hb, Ht, <- app_assoc. split; [reflexivity|].
  apply Forall_app; auto.
Qed.

Lemma logs_same Q before (a b : State) :
  logs Q before a -> trace b = trace a -> logs Q before b.
Proof. intros (evs & Ht & Hall) Hb. exists evs. rewrite Hb; auto. Qed.

Lemma request_of_unknown st prompt :
  unknown_provider st -> request_of st prompt = None.
Proof.
  intros (H1 & H2 & H3). unfold request_of.
  destruct (str_eqb (provider st) (js "openai")) eqn:E1;
    [apply str_eqb_eq in E1; contradiction|].
  destruct (str_eqb (provider st) (js "gemini")) eqn:E2;
    [apply str_eqb_eq in E2; contradiction|].
  destruct (str_eqb (provider st) (js "groq")) eqn:E3;
    [apply str_eqb_eq in E3; contradiction|].
  reflexivity.
Qed.

Lemma sent_with_endpoint st r :
  sent_with st r -> customEndpoint st <> [] -> endpoint r = customEndpoint st.
Proof.
  intros (label & prompt & H) Hc. unfold request_of in H.
  repeat match type of H with context [if ?b then _ else _] => destruct b end;
    try discriminate; injection H as _ <-; cbn [endpoint openai_request gemini_request groq_request];
    destruct (customEndpoint st); try reflexivity; contradiction Hc; reflexivity.
Qed.

Lemma sent_with_authorization st r :
  sent_with st r ->
  (provider st = js "gemini" -> authorization r = None)
  /\ (provider st <> js "gemini" ->
      authorization r = Some (js "Bearer " ++ apiKey st)).
Proof.
  intros (label & prompt & H). unfold request_of in H.
  destruct (str_eqb (provider st) (js "openai")) eqn:E1.
  { apply str_eqb_eq in E1. injection H as _ <-. split; [|reflexivity].
    intros E; rewrite E in E1; discriminate. }
  destruct (str_eqb (provider st) (js "gemini")) eqn:E2.
  { apply str_eqb_eq in E2. injection H as _ <-. split; [reflexivity|].
    intros E; contradiction. }
  destruct (str_eqb (provider st) (js "groq")) eqn:E3; [|discriminate].
  apply str_eqb_eq in E3. injection H as _ <-. split; [|reflexivity].
  intros E; rewrite E in E3; discriminate.
Qed.

(** X1. A run of [executeNLQuery] changes neither the settings, nor the
    question typed in, nor the text of the SQL editor, nor the results of
    the SQL editor. *)
Theorem X1_question_leaves_editor_and_settings (a a' : State) o :
  executeNLQuery a = (a', o) ->
  settings a' = settings a /\ nlInput a' = nlInput a
  /\ sqlEditor a' = sqlEditor a /\ sqlResults a' = sqlResults a.
Proof.
  intros E.
  assert (H : (settings a', nlInput a', sqlEditor a', sqlResults a')
              = (settings a, nlInput a, sqlEditor a, sqlResults a)).
  { apply (hoare_executeNLQuery
             (fun x => (settings x, nlInput x, sqlEditor x, sqlResults x)
                       = (settings a, nlInput a, sqlEditor a, sqlResults a)))
      with (5 := eq_refl) (6 := E).
    - intros x d sql Hx; exact Hx.
    - intros x label r n prompt Hx _; exact Hx.
    - intros x fs Hx _; exact Hx.
    - intros x Hx; repeat split; intros; exact Hx. }
  injection H as -> -> -> ->; auto.
Qed.

(** X2. A run of [runSQL] makes no network call: every event it logs is an
    engine call, and the network state, the settings, the question, the
    results of the question and the history are left as they were. It never
    throws. *)
Theorem X2_editor_run_stays_local (a a' : State) o :
  runSQL a = (a', o) ->
  o = Return tt
  /\ (exists evs, trace a' = trace a ++ evs /\ Forall (fun e => is_exec e = true) evs)
  /\ net a' = net a /\ settings a' = settings a /\ nlInput a' = nlInput a
  /\ nlResults a' = nlResults a /\ queryHistory a' = queryHistory a.
Proof.
  intros E. split; [|split].
  - revert E. unfold runSQL, bind at 1, get.
    destruct (is_empty (trim (sqlEditor a))); [intros [= _ <-]; reflexivity|].
    destruct (db a); [|intros [= _ <-]; reflexivity].
    unfold bind at 1, modify at 1, try_catch.
    match goal with |- context [bind ?m ?k ?x] => destruct (bind m k x) as [a1 [e|[]]] eqn:Eb end.
    + intros [= _ <-]; reflexivity.
    + intros [= _ <-]; reflexivity.
  - apply (hoare_runSQL (logs (fun e => is_exec e = true) (trace a)))
      with (3 := logs_start _ a) (4 := E).
    + intros x d sql Hx. eapply logs_more; [exact Hx | reflexivity | reflexivity].
    + intros x Hx; split; intros; (eapply logs_same; [exact Hx | reflexivity]).
  - assert (H : (net a', settings a', nlInput a', nlResults a', queryHistory a')
                = (net a, settings a, nlInput a, nlResults a, queryHistory a)).
    { apply (hoare_runSQL
               (fun x => (net x, settings x, nlInput x, nlResults x, queryHistory x)
                         = (net a, settings a, nlInput a, nlResults a, queryHistory a)))
        with (3 := eq_refl) (4 := E).
      - intros x d sql Hx; exact Hx.
      - intros x Hx; split; intros; exact Hx. }
    injection H as -> -> -> -> ->; auto.
Qed.

(** X3. Every network request of a run of [executeNLQuery] is built from
    the settings the run started with: it goes to the custom endpoint when
    one is set; it carries the header [Bearer <key>] unless the provider is
    Gemini, and no authorization header for Gemini. A Gemini request to a
    custom endpoint does not depend on the key at all. *)
Theorem X3_requests_follow_settings :
  (forall (a a' : State) o,
     executeNLQuery a = (a', o) ->
     exists evs,
       trace a' = trace a ++ evs
       /\ forall r, In (EvFetch r) evs ->
            (customEndpoint (settings a) <> [] ->
             endpoint r = customEndpoint (settings a))
            /\ (provider (settings a) = js "gemini" -> authorization r = None)
            /\ (provider (settings a) <> js "gemini" ->
                authorization r = Some (js "Bearer " ++ apiKey (settings a))))
  /\ (forall key key' m1 m2 m3 custom prompt,
        custom <> [] ->
        request_of (mkSettings (js "gemini") key m1 m2 m3 custom) prompt
        = request_of (mkSettings (js "gemini") key' m1 m2 m3 custom) prompt).
Proof.
  split.
  - intros a a' o E.
    assert (H : settings a' = settings a
                /\ logs (fetch_sent_with (settings a)) (trace a) a').
    { apply (hoare_executeNLQuery
               (fun x => settings x = settings a
                         /\ logs (fetch_sent_with (settings a)) (trace a) x))
        with (6 := E).
      - intros x d sql [Hs Hl]; split; [exact Hs|].
        eapply logs_more; [exact Hl | reflexivity | exact I].
      - intros x label r n prompt [Hs Hl] Hr; split; [exact Hs|].
        eapply logs_more; [exact Hl | reflexivity |].
        rewrite Hs in Hr. exists label, prompt; exact Hr.
      - intros x fs [Hs Hl] _; split; [exact Hs|].
        eapply logs_same; [exact Hl | reflexivity].
      - intros x [Hs Hl]; repeat split; intros; try exact Hs;
          (eapply logs_same; [exact Hl | reflexivity]).
      - split; [reflexivity | apply logs_start]. }
    destruct H as (_ & evs & Ht & Hall). exists evs; split; [exact Ht|].
    intros r Hin. rewrite Forall_forall in Hall. specialize (Hall _ Hin).
    cbn [fetch_sent_with] in Hall.
    split; [apply sent_with_endpoint; exact Hall|].
    apply sent_with_authorization; exact Hall.
  - intros key key' m1 m2 m3 custom prompt Hc.
    unfold request_of; cbn [provider]. 
    replace (str_eqb (js "gemini") (js "openai")) with false by reflexivity.
    rewrite str_eqb_refl. unfold gemini_request; cbn [customEndpoint].
    destruct custom; [contradiction Hc|]; reflexivity.
Qed.

(** X4. With a provider other than the three [callLLM] knows, a run of
    [executeNLQuery] makes no network call and leaves the network state
    untouched; once the entry checks pass and the schema is read, all it
    shows is the error [Unknown LLM provider]. *)
Theorem X4_unknown_provider_no_network :
  (forall (a a' : State) o,
     unknown_provider (settings a) -> executeNLQuery a = (a', o) ->
     net a' = net a
     /\ exists evs, trace a' = trace a ++ evs /\ Forall (fun e => is_exec e = true) evs)
  /\ (forall (a a1 : State) schema,
        unknown_provider (settings a) -> ready a ->
        getSchemaForLLM (set_nlResults [Spinner] a) = (a1, Return schema) ->
        executeNLQuery a
        = (set_nlResults [AlertError (js "Error: Unknown LLM provider")] a1, Return tt)).
Proof.
  split.
  - intros a a' o Hu E.
    assert (H : (settings a' = settings a /\ net a' = net a)
                /\ logs (fun e => is_exec e = true) (trace a) a').
    { apply (hoare_executeNLQuery
               (fun x => (settings x = settings a /\ net x = net a)
                         /\ logs (fun e => is_exec e = true) (trace a) x))
        with (6 := E).
      - intros x d sql [Hs Hl]; split; [exact Hs|].
        eapply logs_more; [exact Hl | reflexivity | reflexivity].
      - intros x label r n prompt [[Hs _] _] Hr.
        rewrite Hs, (request_of_unknown _ _ Hu) in Hr; discriminate.
      - intros x fs [Hs Hl] _; split; [exact Hs|].
        eapply logs_same; [exact Hl | reflexivity].
      - intros x [Hs Hl]; repeat split; intros; try apply Hs;
          (eapply logs_same; [exact Hl | reflexivity]).
      - split; [split; reflexivity | apply logs_start]. }
    destruct H as ((_ & Hn) & Hl); auto.
  - intros a a1 schema Hu (Hq & Hd & Hk) E1.
    unfold executeNLQuery, bind at 1, get.
    destruct (trim (nlInput a)) as [|c q]; [contradiction Hq; reflexivity|].
    destruct (db a) as [d|]; [|contradiction Hd; reflexivity].
    destruct (apiKey (settings a)) as [|k ks]; [contradiction Hk; reflexivity|].
    cbn [is_empty]. unfold bind at 1, modify at 1, try_catch.
    unfold pipeline, bind at 1. rewrite E1. unfold bind at 1, generateSQL.
    rewrite callLLM_spec, request_of_unknown; [reflexivity|].
    assert (Hs : settings a1 = settings (set_nlResults [Spinner] a)).
    { apply (hoare_getSchemaForLLM (fun x => settings x = settings (set_nlResults [Spinner] a)))
        with (2 := eq_refl) (3 := E1).
      intros x d0 sql Hx; exact Hx. }
    rewrite Hs; exact Hu.
Qed.

(** *** How a run ends *)

(** What [pipeline] leaves behind: on return the results element shows the
    markup built in this run, which holds no spinner, and the question is
    recorded; on a throw neither the history nor the results element was
    touched. *)
Lemma pipeline_post query (a a' : State) o :
  pipeline query a = (a', o) ->
  match o with
  | Return _ =>
    nlResults a' = html a' /\ ~ In Spinner (html a')
    /\ queryHistory a' = slice0 10 (query :: queryHistory a)
  | Throw _ => queryHistory a' = queryHistory a /\ nlResults a' = nlResults a
  end.
Proof.
  set (I := fun x : State => queryHistory x = queryHistory a /\ nlResults x = nlResults a).
  assert (He : stable_exec I) by (intros x d sql Hx; exact Hx).
  assert (Hf : stable_fetch I) by (intros x label r n prompt Hx _; exact Hx).
  assert (Ha : stable_append I) by (intros x fs Hx _; exact Hx).
  unfold pipeline, bind at 1.
  destruct (getSchemaForLLM a) as [a1 [e|schema]] eqn:E1.
  { intros [= <- <-]. apply (hoare_getSchemaForLLM I He a a1 _ (conj eq_refl eq_refl) E1). }
  pose proof (hoare_getSchemaForLLM I He a a1 _ (conj eq_refl eq_refl) E1) as H1.
  unfold bind at 1.
  destruct (generateSQL query schema a1) as [a2 [e|sqlQuery]] eqn:E2.
  { intros [= <- <-]. apply (hoare_callLLM I _ Hf a1 a2 _ H1 E2). }
  pose proof (hoare_callLLM I _ Hf a1 a2 _ H1 E2) as H2.
  unfold bind at 1, modify at 1. unfold bind at 1.
  set (a2' := set_html [GeneratedSQLCard sqlQuery] a2).
  assert (H2' : I a2') by exact H2.
  destruct (try_catch (run_generated query sqlQuery) (on_sql_error sqlQuery schema) a2')
    as [a3 [e|u]] eqn:E3.
  { intros [= <- <-]. apply (hoare_block I _ _ _ He Hf Ha a2' a3 _ H2' E3). }
  pose proof (hoare_block I _ _ _ He Hf Ha a2' a3 _ H2' E3) as [H3 _].
  assert (Hsp : ~ In Spinner (html a3)).
  { apply (hoare_block (fun x => ~ In Spinner (html x)) query sqlQuery schema)
      with (5 := E3).
    - intros x d sql Hx; exact Hx.
    - intros x label r n prompt Hx _; exact Hx.
    - intros x fs Hx Hfs; cbn. intros Hin. apply in_app_or in Hin as [Hin|Hin]; auto.
    - cbn; intuition discriminate. }
  intros [= <- <-]. cbn. rewrite H3. auto.
Qed.

(** X5. [executeNLQuery] never throws, and once its entry checks pass it
    never leaves the spinner in the results element: the run ends with the
    markup it built or with an error notice. *)
Theorem X5_question_run_always_ends (a : State) :
  snd (executeNLQuery a) = Return tt
  /\ (ready a -> ~ In Spinner (nlResults (fst (executeNLQuery a)))).
Proof.
  assert (H : forall a' o, executeNLQuery a = (a', o) ->
                o = Return tt /\ (ready a -> ~ In Spinner (nlResults a'))).
  { intros a' o. unfold executeNLQuery, bind at 1, get, ready.
    destruct (trim (nlInput a)) as [|c q] eqn:Eq; cbn [is_empty].
    { intros [= _ <-]. split; [reflexivity|]. intros (H & _); contradiction H; reflexivity. }
    destruct (db a) as [d|] eqn:Ed.
    2:{ intros [= _ <-]. split; [reflexivity|].
        intros (_ & H & _); contradiction H; reflexivity. }
    destruct (apiKey (settings a)) as [|k ks] eqn:Ek; cbn [is_empty].
    { intros [= _ <-]. split; [reflexivity|].
      intros (_ & _ & H); contradiction H; reflexivity. }
    unfold bind at 1, modify at 1, try_catch.
    destruct (pipeline (c :: q) (set_nlResults [Spinner] a)) as [a1 [e|[]]] eqn:Ep.
    - intros [= <- <-]. split; [reflexivity|]. intros _ [H|[]]; discriminate H.
    - intros [= <- <-]. split; [reflexivity|]. intros _.
      destruct (pipeline_post _ _ _ _ Ep) as (Hn & Hs & _). rewrite Hn; exact Hs. }
  destruct (executeNLQuery a) as [a' o] eqn:E. exact (H a' o eq_refl).
Qed.

(** X6. A run of [executeNLQuery] either leaves the history as it was or
    puts the trimmed question in front of it and keeps the first ten
    entries; the second happens only with the entry checks passed and the
    results element showing the markup of the run. A history of at most ten
    entries stays so. *)
Theorem X6_history_newest_first_at_most_ten (a a' : State) o :
  executeNLQuery a = (a', o) ->
  (queryHistory a' = queryHistory a
   \/ (ready a /\ nlResults a' = html a'
       /\ queryHistory a' = firstn 10 (trim (nlInput a) :: queryHistory a)))
  /\ (length (queryHistory a) <= 10 -> length (queryHistory a') <= 10).
Proof.
  intros E.
  assert (H : queryHistory a' = queryHistory a
              \/ (ready a /\ nlResults a' = html a'
                  /\ queryHistory a' = firstn 10 (trim (nlInput a) :: queryHistory a))).
  { revert E. unfold executeNLQuery, bind at 1, get, ready.
    destruct (trim (nlInput a)) as [|c q] eqn:Eq; cbn [is_empty].
    { intros [= <- _]; left; reflexivity. }
    destruct (db a) as [d|] eqn:Ed.
    2:{ intros [= <- _]; left; reflexivity. }
    destruct (apiKey (settings a)) as [|k ks] eqn:Ek; cbn [is_empty].
    { intros [= <- _]; left; reflexivity. }
    unfold bind at 1, modify at 1, try_catch.
    destruct (pipeline (c :: q) (set_nlResults [Spinner] a)) as [a1 [e|[]]] eqn:Ep.
    - intros [= <- _]. left. destruct (pipeline_post _ _ _ _ Ep) as (Hh & _). exact Hh.
    - intros [= <- _]. right. destruct (pipeline_post _ _ _ _ Ep) as (Hn & _ & Hh).
      repeat split; try discriminate; assumption. }
  split; [exact H|].
  intros Hlen. destruct H as [->|(_ & _ & ->)]; [exact Hlen|].
  apply firstn_le_length.
Qed.

(** X7. When reading the schema throws, or when the call that generates the
    statement fails, the run shows the message after [Error: ] and nothing
    else. In the first case no network call was made; in the second the
    engine was not called after the schema was read and at most one network
    call was made, so no repair was asked for. *)
Theorem X7_failure_before_execution :
  (forall (a a1 : State) e,
     ready a ->
     getSchemaForLLM (set_nlResults [Spinner] a) = (a1, Throw e) ->
     executeNLQuery a = (set_nlResults [AlertError (js "Error: " ++ e)] a1, Return tt)
     /\ net a1 = net a
     /\ exists evs, trace a1 = trace a ++ evs /\ Forall (fun ev => is_exec ev = true) evs)
  /\ (forall (a a1 a2 : State) schema e,
        ready a ->
        getSchemaForLLM (set_nlResults [Spinner] a) = (a1, Return schema) ->
        generateSQL (trim (nlInput a)) schema a1 = (a2, Throw e) ->
        executeNLQuery a = (set_nlResults [AlertError (js "Error: " ++ e)] a2, Return tt)
        /\ db a2 = db a1
        /\ (trace a2 = trace a1 \/ exists r, trace a2 = trace a1 ++ [EvFetch r])).
Proof.
  split.
  - intros a a1 e (Hq & Hd & Hk) E1. split.
    + unfold executeNLQuery, bind at 1, get.
      destruct (trim (nlInput a)) as [|c q]; [contradiction Hq; reflexivity|].
      destruct (db a) as [d|]; [|contradiction Hd; reflexivity].
      destruct (apiKey (settings a)) as [|k ks]; [contradiction Hk; reflexivity|].
      cbn [is_empty]. unfold bind at 1, modify at 1, try_catch.
      unfold pipeline, bind at 1. rewrite E1. reflexivity.
    + assert (H : net a1 = net a /\ logs (fun ev => is_exec ev = true) (trace a) a1).
      { apply (hoare_getSchemaForLLM
                 (fun x => net x = net a /\ logs (fun ev => is_exec ev = true) (trace a) x))
          with (3 := E1).
        - intros x d sql [Hn Hl]; split; [exact Hn|].
          eapply logs_more; [exact Hl | reflexivity | reflexivity].
        - split; [reflexivity | apply (logs_start _ a)]. }
      exact H.
  - intros a a1 a2 schema e (Hq & Hd & Hk) E1 E2. split.
    + unfold executeNLQuery, bind at 1, get.
      destruct (trim (nlInput a)) as [|c q]; [contradiction Hq; reflexivity|].
      destruct (db a) as [d|]; [|contradiction Hd; reflexivity].
      destruct (apiKey (settings a)) as [|k ks]; [contradiction Hk; reflexivity|].
      cbn [is_empty]. unfold bind at 1, modify at 1, try_catch.
      unfold pipeline, bind at 1. rewrite E1. unfold bind at 1. rewrite E2. reflexivity.
    + revert E2. unfold generateSQL. rewrite callLLM_spec.
      destruct (request_of (settings a1) _) as [[label r]|].
      * intros [= <- _]. split; [reflexivity|]. right; exists r; reflexivity.
      * intros [= <- _]. split; [reflexivity|]. left; reflexivity.
Qed.

(** The run of the statements of the editor up to one that raises. *)
Lemma run_statements_error d before outs d1 :
  Chain d before outs d1 ->
  Forall (fun s => is_empty (trim s) = false) before ->
  forall bad rest d2 message (a : State) i acc,
    is_empty (trim bad) = false ->
    db_exec d1 bad = (d2, ExecError message) ->
    db a = Some d ->
    run_statements (before ++ bad :: rest) i acc a
    = (set_trace (trace a ++ map EvExec (before ++ [bad])) (set_db (Some d2) a),
       Throw message).
Proof.
  induction 1 as [d|d d1 d3 st sts rs outs He _ IH];
    intros Hall bad rest d2 message a i acc Hbad Herr Hd.
  - cbn [app run_statements map]. rewrite Hbad. unfold bind.
    rewrite (exec_error a d d2 bad message Hd Herr). reflexivity.
  - inversion Hall as [|? ? Hst Hsts]; subst.
    cbn [app run_statements]. rewrite Hst. unfold bind.
    rewrite (exec_ok a d d1 st rs Hd He).
    set (a1 := set_trace _ (set_db (Some d1) a)).
    assert (Ha1 : set_trace (trace a1 ++ map EvExec (sts ++ [bad])) (set_db (Some d2) a1)
                  = set_trace (trace a ++ map EvExec ((st :: sts) ++ [bad]))
                              (set_db (Some d2) a)).
    { subst a1. destruct a; simpl. rewrite <- app_assoc. reflexivity. }
    destruct rs as [|r rs'];
      rewrite (IH Hsts bad rest d2 message a1 (S i) _ Hbad Herr eq_refl), Ha1;
      reflexivity.
Qed.

(** X8. When a statement of the editor raises, [runSQL] stops there: the
    statements after it are not sent to the engine, the results of the
    statements before it are not shown (only the error is), and the engine
    keeps what those statements did. *)
Theorem X8_editor_error_discards_results
        (a : State) d before outs d1 bad rest d2 message :
  db a = Some d -> trim (sqlEditor a) <> [] ->
  statements_of (trim (sqlEditor a)) = before ++ bad :: rest ->
  Chain d before outs d1 ->
  db_exec d1 bad = (d2, ExecError message) ->
  exists a',
    runSQL a = (a', Return tt)
    /\ sqlResults a' = [AlertError (js "SQL Error: " ++ message)]
    /\ trace a' = trace a ++ map EvExec (before ++ [bad])
    /\ db a' = Some d2.
Proof.
  intros Hd Hne Hst Hc Herr. unfold runSQL, bind at 1, get.
  pose proof (statements_nonblank (trim (sqlEditor a))) as Hall.
  rewrite Hst in Hall.
  destruct (trim (sqlEditor a)) as [|c sql] eqn:Es; [contradiction Hne; reflexivity|].
  cbn [is_empty]. rewrite Hd.
  unfold bind at 1, modify at 1, try_catch, bind. rewrite Hst.
  apply Forall_app in Hall as [Hb Hr]. inversion Hr as [|? ? Hbad _]; subst.
  rewrite (run_statements_error _ _ _ _ Hc Hb bad rest d2 message
             (set_sqlResults [] a) 0 [] Hbad Herr); [|destruct a; exact Hd].
  eexists; split; [reflexivity|]. destruct a; simpl; auto.
Qed.

End Invariants.

(** ** More on the response cleaning *)

Section Cleaning.
Import Clean CleanFacts Logic.

Lemma trim_start_split s :
  exists ws, s = ws ++ trim_start s /\ Forall (fun c => is_space c = true) ws.
Proof.
  induction s as [|c s (ws & E & H)]; [exists []; auto|].
  cbn [trim_start]. destruct (is_space c) eqn:Ec.
  - exists (c :: ws). split; [cbn; congruence | constructor; assumption].
  - exists []; auto.
Qed.

Lemma trim_start_head s :
  match trim_start s with [] => True | c :: _ => is_space c = false end.
Proof.
  induction s as [|c s IH]; [exact I|]. cbn [trim_start].
  destruct (is_space c) eqn:Ec; [exact IH | exact Ec].
Qed.

Lemma trim_start_fixed c s : is_space c = false -> trim_start (c :: s) = c :: s.
Proof. intros H; cbn; rewrite H; reflexivity. Qed.

Lemma trim_start_before c p q :
  is_space c = false -> trim_start (p ++ c :: q) = trim_start p ++ c :: q.
Proof.
  intros Hc. induction p as [|a p IH]; cbn [app trim_start].
  - rewrite Hc; reflexivity.
  - destruct (is_space a); [exact IH | reflexivity].
Qed.

Lemma trim_end_split s :
  exists ws, s = trim_end s ++ ws /\ Forall (fun c => is_space c = true) ws.
Proof.
  destruct (trim_start_split (rev s)) as (ws & E & H).
  exists (rev ws). split.
  - unfold trim_end. rewrite <- rev_app_distr, <- E, rev_involutive. reflexivity.
  - apply Forall_rev; exact H.
Qed.

Lemma trim_end_after c p q :
  is_space c = false -> trim_end (p ++ c :: q) = p ++ c :: trim_end q.
Proof.
  intros Hc. unfold trim_end.
  replace (rev (p ++ c :: q)) with (rev q ++ c :: rev p)
    by (rewrite rev_app_distr; cbn [rev]; rewrite <- app_assoc; reflexivity).
  rewrite (trim_start_before c (rev q) (rev p) Hc).
  rewrite rev_app_distr. cbn [rev]. rewrite rev_involutive, <- app_assoc. reflexivity.
Qed.

Lemma trim_end_cons c q : is_space c = false -> trim_end (c :: q) = c :: trim_end q.
Proof. intros Hc. exact (trim_end_after c [] q Hc). Qed.

Lemma trim_end_idem s : trim_end (trim_end s) = trim_end s.
Proof.
  unfold trim_end. rewrite rev_involutive. f_equal.
  pose proof (trim_start_head (rev s)) as H.
  destruct (trim_start (rev s)) as [|c t]; [reflexivity|].
  apply trim_start_fixed; exact H.
Qed.

Lemma trim_head s :
  match trim s with [] => True | c :: _ => is_space c = false end.
Proof.
  unfold trim. pose proof (trim_start_head s) as H.
  destruct (trim_start s) as [|c t]; [exact I|].
  rewrite (trim_end_cons c t H). exact H.
Qed.

Lemma trim_idem s : trim (trim s) = trim s.
Proof.
  pose proof (trim_head s) as H. unfold trim at 1.
  destruct (trim s) as [|c t] eqn:E; [reflexivity|].
  rewrite (trim_start_fixed c t H), <- E. unfold trim. apply trim_end_idem.
Qed.

Lemma trim_last s :
  match trim s with [] => True | c :: _ => is_space (last (trim s) c) = false end.
Proof.
  pose proof (trim_head s) as Hh.
  destruct (trim s) as [|c t] eqn:E; [exact I|].
  assert (Ht : exists u, rev (c :: t) = trim_start u).
  { rewrite <- E. unfold trim, trim_end. rewrite rev_involutive. eexists; reflexivity. }
  destruct Ht as (u & Hu). pose proof (trim_start_head u) as Hs. rewrite <- Hu in Hs.
  destruct (rev (c :: t)) as [|z w] eqn:Er.
  { apply (f_equal (@length N)) in Er. rewrite length_rev in Er. discriminate. }
  apply (f_equal (@rev N)) in Er. rewrite rev_involutive in Er. cbn [rev] in Er.
  rewrite Er, last_last. exact Hs.
Qed.

Lemma trim_inside s : exists pre post, s = pre ++ trim s ++ post.
Proof.
  destruct (trim_start_split s) as (pre & E1 & _).
  destruct (trim_end_split (trim_start s)) as (post & E2 & _).
  exists pre, post. unfold trim. rewrite <- E2. exact E1.
Qed.

Lemma substring_of_trim p s : substring_of p (trim s) -> substring_of p s.
Proof.
  intros (x & y & E). destruct (trim_inside s) as (pre & post & Es).
  exists (pre ++ x), (y ++ post). rewrite Es at 1. rewrite E, <- !app_assoc. reflexivity.
Qed.

Lemma fence_survives_trim s : substring_of fence s -> substring_of fence (trim s).
Proof.
  intros (p & q & ->). unfold trim.
  change (fence ++ q) with (96%N :: 96%N :: 96%N :: q).
  rewrite (trim_start_before 96 p _ eq_refl).
  rewrite (trim_end_after 96 (trim_start p) _ eq_refl).
  rewrite !(trim_end_cons 96 _ eq_refl).
  exists (trim_start p), (trim_end q). reflexivity.
Qed.

Lemma strip_app_more p x y r : strip p x = Some r -> strip p (x ++ y) = Some (r ++ y).
Proof.
  intros H. apply strip_app in H; subst x. rewrite <- app_assoc. apply strip_app_same.
Qed.

Lemma find_fence_before s : forall b r, find_fence s = Some (b, r) -> find_fence b = None.
Proof.
  induction s as [|c s IH]; intros b r; [cbn; discriminate|].
  cbn [find_fence]. destruct (strip fence (c :: s)) as [rest|] eqn:E.
  - intros [= <- _]; reflexivity.
  - destruct (find_fence s) as [[b' r']|] eqn:Ef; [|discriminate].
    intros [= <- <-]. apply find_fence_sound in Ef as Es.
    rewrite find_fence_cons_other, (IH _ _ eq_refl); [reflexivity|].
    destruct (strip fence (c :: b')) as [x|] eqn:Eb; [|reflexivity].
    apply (strip_app_more _ _ (fence ++ r')) in Eb.
    rewrite Es in E. cbn [app] in Eb. rewrite Eb in E. discriminate.
Qed.

Lemma find_fence_some s : substring_of fence s -> find_fence s <> None.
Proof. intros H E. apply find_fence_none_iff in E. contradiction. Qed.

(** When two fences follow each other in [s], the text after the first
    fence of [s] holds a fence. *)
Lemma two_fences y z : forall x b after,
  find_fence (x ++ fence ++ y ++ fence ++ z) = Some (b, after) ->
  find_fence after <> None.
Proof.
  assert (Hz : forall w, find_fence (w ++ fence ++ z) <> None).
  { intros w. apply find_fence_some. exists w, z; reflexivity. }
  induction x as [|c x IH]; intros b after.
  - cbn [app]. rewrite (find_fence_head _ _ (strip_app_same fence _)).
    intros [= _ <-]. apply Hz.
  - cbn [app]. cbn [find_fence].
    destruct (strip fence (c :: x ++ fence ++ y ++ fence ++ z)) as [rest|] eqn:E.
    + intros [= _ <-]. apply strip_app in E.
      change (fence ++ rest) with (96%N :: 96%N :: 96%N :: rest) in E.
      destruct x as [|x1 [|x2 x]].
      * change ([] ++ fence ++ y ++ fence ++ z)
          with (96%N :: 96%N :: 96%N :: y ++ fence ++ z) in E.
        inversion E; subst. apply (Hz (96%N :: y)).
      * change ([x1] ++ fence ++ y ++ fence ++ z)
          with (x1 :: 96%N :: 96%N :: 96%N :: y ++ fence ++ z) in E.
        inversion E; subst. apply (Hz (96%N :: 96%N :: y)).
      * cbn [app] in E. inversion E; subst.
        pose proof (Hz (x ++ fence ++ y)) as Hw. rewrite <- !app_assoc in Hw. exact Hw.
    + destruct (find_fence (x ++ fence ++ y ++ fence ++ z)) as [[b' r']|] eqn:Ef;
        [|discriminate].
      intros [= _ <-]. exact (IH _ _ eq_refl).
Qed.

Lemma strip_tag_split s : exists tag, s = tag ++ strip_tag s.
Proof.
  unfold strip_tag.
  destruct (strip (js "sql") s) as [t|] eqn:E1;
    [exists (js "sql"); apply strip_app; exact E1|].
  destruct (strip (js "SQL") s) as [t|] eqn:E2;
    [exists (js "SQL"); apply strip_app; exact E2|].
  exists []; reflexivity.
Qed.

Lemma first_block_has_block s : first_block s <> None <-> has_block s.
Proof.
  unfold first_block. split.
  - destruct (find_fence s) as [[b after]|] eqn:E1; [|intros H; contradiction H; reflexivity].
    destruct (find_fence (strip_tag after)) as [[content r]|] eqn:E2;
      [|intros H; contradiction H; reflexivity].
    intros _. apply find_fence_sound in E1, E2.
    destruct (strip_tag_split after) as (tag & Et).
    exists b, (tag ++ content), r. rewrite E1, Et, E2, <- !app_assoc. reflexivity.
  - intros (x & y & z & ->).
    destruct (find_fence (x ++ fence ++ y ++ fence ++ z)) as [[b after]|] eqn:E1.
    + pose proof (two_fences _ _ _ _ _ E1) as H2.
      destruct (find_fence (strip_tag after)) as [[content r]|] eqn:E2; [discriminate|].
      apply find_fence_strip_tag in E2. contradiction.
    + exfalso. revert E1. apply find_fence_some. exists x, (y ++ fence ++ z); reflexivity.
Qed.

Lemma has_block_trim s : has_block (trim s) -> has_block s.
Proof.
  intros (x & y & z & E). destruct (trim_inside s) as (pre & post & Es).
  exists (pre ++ x), y, (z ++ post). rewrite Es at 1. rewrite E, <- !app_assoc. reflexivity.
Qed.

Lemma trimmed_trim s : trimmed (trim s).
Proof.
  unfold trimmed. pose proof (trim_head s) as H1. pose proof (trim_last s) as H2.
  destruct (trim s); [exact I | split; assumption].
Qed.

Lemma clean_no_block s : first_block s = None -> cleanLLMResponse s = trim s.
Proof. intros H. rewrite clean_refines. unfold clean_spec. rewrite H. reflexivity. Qed.

(** X9. Cleaning a cleaned response changes nothing, and a cleaned response
    has no white space at either end. *)
Theorem X9_cleaning_idempotent (s : jsstring) :
  cleanLLMResponse (cleanLLMResponse s) = cleanLLMResponse s
  /\ trimmed (cleanLLMResponse s).
Proof.
  rewrite (clean_refines s). unfold clean_spec.
  destruct (first_block s) as [content|] eqn:E.
  - split; [|apply trimmed_trim].
    assert (Hc : find_fence content = None).
    { unfold first_block in E.
      destruct (find_fence s) as [[b after]|]; [|discriminate].
      destruct (find_fence (strip_tag after)) as [[c r]|] eqn:E2; [|discriminate].
      injection E as <-. exact (find_fence_before _ _ _ E2). }
    rewrite clean_no_block; [apply trim_idem|].
    unfold first_block.
    destruct (find_fence (trim content)) as [[b after]|] eqn:E2; [|reflexivity].
    exfalso. apply find_fence_none_iff in Hc. apply Hc.
    apply substring_of_trim. apply find_fence_sound in E2.
    exists b, after; exact E2.
  - split; [|apply trimmed_trim].
    rewrite clean_no_block; [apply trim_idem|].
    destruct (first_block (trim s)) eqn:E2; [|reflexivity].
    exfalso. assert (H : first_block s <> None).
    { apply first_block_has_block, has_block_trim, first_block_has_block.
      rewrite E2; discriminate. }
    contradiction.
Qed.

(** X10. The cleaned response still holds a fence exactly when the response
    holds a fence but no pair of an opening and a closing fence; so a
    response with a complete fenced block is cleaned of every fence, and an
    opening fence that is never closed is passed on. *)
Theorem X10_fence_left_only_without_block (s : jsstring) :
  substring_of fence (cleanLLMResponse s)
  <-> substring_of fence s /\ ~ has_block s.
Proof.
  rewrite (clean_refines s). unfold clean_spec.
  destruct (first_block s) as [content|] eqn:E.
  - assert (Hb : has_block s) by (apply first_block_has_block; rewrite E; discriminate).
    split; [|intros [_ H]; contradiction].
    intros Hf. exfalso.
    unfold first_block in E.
    destruct (find_fence s) as [[b after]|]; [|discriminate].
    destruct (find_fence (strip_tag after)) as [[c r]|] eqn:E2; [|discriminate].
    injection E as <-. apply find_fence_before in E2.
    apply find_fence_none_iff in E2. apply E2, substring_of_trim, Hf.
  - assert (Hb : ~ has_block s).
    { intros H. apply first_block_has_block in H. contradiction. }
    split.
    + intros Hf. split; [apply substring_of_trim; exact Hf | exact Hb].
    + intros [Hf _]. apply fence_survives_trim; exact Hf.
Qed.

End Cleaning.

(** ** Cutting the editor text into statements *)

Section Splitting.

Lemma split_on_cons sep s : exists part parts, split_on sep s = part :: parts.
Proof.
  induction s as [|c s (part & parts & E)]; cbn [split_on]; [eauto|].
  destruct (c =? sep)%N; [eauto|]. rewrite E; eauto.
Qed.

Lemma join_split sep s : join [sep] (split_on sep s) = s.
Proof.
  induction s as [|c s IH]; [reflexivity|]. cbn [split_on].
  destruct (split_on_cons sep s) as (part & parts & E). rewrite E in IH |- *.
  destruct (N.eqb_spec c sep) as [->|_].
  - change (join [sep] ([] :: part :: parts)) with ([sep] ++ join [sep] (part :: parts)).
    rewrite IH. reflexivity.
  - destruct parts as [|q parts].
    + cbn in IH |- *. rewrite IH. reflexivity.
    + change (join [sep] ((c :: part) :: q :: parts))
        with (c :: (part ++ [sep] ++ join [sep] (q :: parts))).
      change (join [sep] (part :: q :: parts))
        with (part ++ [sep] ++ join [sep] (q :: parts)) in IH.
      rewrite IH. reflexivity.
Qed.

Lemma split_on_no_sep sep s : Forall (fun part => ~ In sep part) (split_on sep s).
Proof.
  induction s as [|c s IH]; cbn [split_on]; [repeat constructor; intros []|].
  destruct (N.eqb_spec c sep) as [->|Hc].
  - constructor; [intros []|exact IH].
  - destruct (split_on sep s) as [|part parts]; [repeat constructor; intros [H|[]]; congruence|].
    inversion IH as [|? ? Hp Hps]; subst. constructor; [|exact Hps].
    intros [H|H]; [congruence | contradiction].
Qed.

(** X11. Joining the pieces [split(';')] cuts a text into, with semicolons,
    gives the text back; every statement [runSQL] sends to the engine is one
    of these pieces: a part of the text, free of semicolons and not blank. *)
Theorem X11_statements_are_the_pieces_between_semicolons (sql : jsstring) :
  join (js ";") (split_on 59 sql) = sql
  /\ forall statement, In statement (statements_of sql) ->
       substring_of statement sql
       /\ ~ In 59%N statement
       /\ trim statement <> [].
Proof.
  split; [apply (join_split 59)|].
  intros st Hin. unfold statements_of in Hin. apply filter_In in Hin as [Hin Hnb].
  split; [|split].
  - rewrite <- (join_split 59 sql). apply join_substring; exact Hin.
  - pose proof (split_on_no_sep 59 sql) as H. rewrite Forall_forall in H. exact (H _ Hin).
  - intros E. rewrite E in Hnb. discriminate.
Qed.

End Splitting.

(** ** The fields of the CSV file *)

Section CsvFacts.
Import Csv.

Lemma replace_quotes s :
  replace_all dquote (dquote ++ dquote) s = flat_map double_quote s.
Proof.
  unfold replace_all. change (dquote ++ dquote) with [34%N; 34%N].
  change dquote with [34%N].
  induction s as [|c s IH]; [reflexivity|].
  change (replace_from [34%N] [34%N; 34%N] (c :: s) 0)
    with (if (34 =? c)%N && true
          then [34%N; 34%N] ++ replace_from [34%N] [34%N; 34%N] s 0
          else c :: replace_from [34%N] [34%N; 34%N] s 0).
  cbn [flat_map]. unfold double_quote at 1.
  rewrite andb_true_r, N.eqb_sym, IH. destruct (c =? 34)%N; reflexivity.
Qed.

Lemma double_quote_injective s : forall t,
  flat_map double_quote s = flat_map double_quote t -> s = t.
Proof.
  induction s as [|c s IH]; intros [|d t]; cbn [flat_map]; unfold double_quote.
  - reflexivity.
  - destruct (d =? 34)%N; discriminate.
  - destruct (c =? 34)%N; discriminate.
  - destruct (N.eqb_spec c 34) as [->|Hc], (N.eqb_spec d 34) as [->|Hd]; cbn [app].
    + intros [= H]. f_equal. apply IH; exact H.
    + intros [= <- H]. contradiction Hd; reflexivity.
    + intros [= -> H]. contradiction Hc; reflexivity.
    + intros [= -> H]. f_equal. apply IH; exact H.
Qed.

Lemma includes_head c s : includes [c] (c :: s) = true.
Proof. cbn. rewrite N.eqb_refl. reflexivity. Qed.

Lemma app_inv_last (x y : jsstring) c : x ++ [c] = y ++ [c] -> x = y.
Proof. intros H. apply app_inj_tail in H as [H _]. exact H. Qed.

(** X12. The field [exportCSV] writes for a cell determines the text of the
    cell: two different texts never give the same field. The empty field
    stands for the empty text, which is also what [null] is written as. *)
Theorem X12_csv_field_injective :
  (forall s t, csv_field s = csv_field t -> s = t)
  /\ (forall s, csv_field s = [] <-> s = []).
Proof.
  assert (Hq : forall s, includes (js ",") s || includes dquote s || includes nl s = false ->
                         forall body, s <> dquote ++ body).
  { intros s H body ->. change (dquote ++ body) with (34%N :: body) in H.
    change dquote with [34%N] in H.
    rewrite (includes_head 34 body), orb_true_r in H. discriminate. }
  split.
  - intros s t. unfold csv_field.
    destruct (includes (js ",") s || includes dquote s || includes nl s) eqn:Es,
             (includes (js ",") t || includes dquote t || includes nl t) eqn:Et.
    + intros H. apply app_inv_head in H. apply (app_inv_last _ _ 34%N) in H.
      rewrite !replace_quotes in H. apply double_quote_injective; exact H.
    + intros H. exfalso. exact (Hq t Et _ (eq_sym H)).
    + intros H. exfalso. exact (Hq s Es _ H).
    + trivial.
  - clear Hq. intros s. unfold csv_field.
    destruct (includes (js ",") s || includes dquote s || includes nl s) eqn:Es;
      [|tauto].
    split; [intros H; discriminate H|]. intros ->. discriminate Es.
Qed.

Lemma includes_false c s : includes [c] s = false -> ~ In c s.
Proof.
  induction s as [|d s IH]; [intros _ []|].
  cbn [includes starts_with]. rewrite andb_true_r.
  destruct (N.eqb_spec c d) as [->|Hd]; [discriminate|].
  cbn [orb]. intros H [E|Hin]; [congruence | exact (IH H Hin)].
Qed.

Lemma read_plain_field s rest :
  ~ In 44%N s -> (rest = [] \/ exists r, rest = 44%N :: r) ->
  read_plain (s ++ rest) = (s, rest).
Proof.
  intros Hs Hrest. induction s as [|c s IH]; cbn [app].
  - destruct Hrest as [->|(r & ->)]; reflexivity.
  - cbn [read_plain]. destruct (N.eqb_spec c 44) as [->|_].
    + contradiction Hs; left; reflexivity.
    + rewrite IH; [reflexivity|]. intros H; apply Hs; right; exact H.
Qed.

Lemma read_quoted_field s rest : forall acc,
  (rest = [] \/ exists r, rest = 44%N :: r) ->
  read_quoted acc (flat_map double_quote s ++ 34%N :: rest) = (rev acc ++ s, rest).
Proof.
  induction s as [|c s IH]; intros acc Hrest.
  - cbn. rewrite app_nil_r. destruct Hrest as [->|(r & ->)]; reflexivity.
  - cbn [flat_map]. unfold double_quote at 1.
    destruct (N.eqb_spec c 34) as [->|Hc].
    + cbn [app read_quoted N.eqb Pos.eqb]. rewrite (IH _ Hrest).
      cbn [rev]. rewrite <- app_assoc. reflexivity.
    + cbn [app read_quoted].
      destruct (N.eqb_spec c 34) as [E|_]; [contradiction|].
      rewrite (IH _ Hrest). cbn [rev]. rewrite <- app_assoc. reflexivity.
Qed.

Lemma read_field_csv s rest :
  (rest = [] \/ exists r, rest = 44%N :: r) ->
  read_field (csv_field s ++ rest) = (s, rest).
Proof.
  intros Hrest. unfold csv_field.
  destruct (includes (js ",") s || includes dquote s || includes nl s) eqn:Es.
  - rewrite replace_quotes.
    change (dquote ++ flat_map double_quote s ++ dquote)
      with (34%N :: (flat_map double_quote s ++ [34%N])).
    cbn [app read_field N.eqb Pos.eqb]. rewrite <- app_assoc.
    exact (read_quoted_field s rest [] Hrest).
  - apply orb_false_elim in Es as [Es _]. apply orb_false_elim in Es as [Hcomma Hquote].
    apply includes_false in Hcomma. apply (includes_false 34) in Hquote.
    destruct s as [|c s].
    + destruct Hrest as [->|(r & ->)]; reflexivity.
    + cbn [app read_field]. destruct (N.eqb_spec c 34) as [->|_].
      * contradiction Hquote; left; reflexivity.
      * exact (read_plain_field (c :: s) rest Hcomma Hrest).
Qed.

Lemma join_fields s ss :
  exists rest, join (js ",") (map csv_field (s :: ss)) = csv_field s ++ rest
               /\ match ss with
                  | [] => rest = []
                  | _ => rest = 44%N :: join (js ",") (map csv_field ss)
                  end.
Proof.
  destruct ss as [|t ss].
  - exists []. cbn. rewrite app_nil_r. auto.
  - eexists. split; reflexivity.
Qed.

Lemma line_injective ss : forall ts,
  length ss = length ts ->
  join (js ",") (map csv_field ss) = join (js ",") (map csv_field ts) -> ss = ts.
Proof.
  induction ss as [|s ss IH]; intros [|t ts] Hlen; try discriminate; [reflexivity|].
  injection Hlen as Hlen.
  destruct (join_fields s ss) as (r1 & -> & H1), (join_fields t ts) as (r2 & -> & H2).
  intros H. apply (f_equal read_field) in H.
  rewrite !read_field_csv in H.
  - injection H as -> Hr. f_equal.
    destruct ss as [|s' ss], ts as [|t' ts]; try discriminate; [reflexivity|].
    subst r1 r2. injection Hr as Hr. apply IH; assumption.
  - destruct ts; [left | right; eexists]; exact H2.
  - destruct ss; [left | right; eexists]; exact H1.
Qed.

(** X13. A line of the file determines the texts of its cells: two rows of
    the same length that give the same line have the same texts, cell by
    cell ([null] counting as the empty text). *)
Theorem X13_csv_line_determines_cells {P : Platform} (row row' : list (Data.value Num)) :
  length row = length row' ->
  csv_row row = csv_row row' ->
  map cell_text row = map cell_text row'.
Proof.
  intros Hlen H. unfold csv_row in H. apply app_inv_tail in H.
  assert (Hc : forall r : list (Data.value Num),
             map csv_cell r = map csv_field (map cell_text r)).
  { intros r. rewrite map_map. apply map_ext. intros [| |n|t|b]; reflexivity. }
  rewrite !Hc in H. apply line_injective; [rewrite !length_map; exact Hlen | exact H].
Qed.

End CsvFacts.

(** ** Escaped text *)

Section Escaping.

Ltac unit_cases c :=
  unfold escape_unit;
  destruct (N.eqb_spec c 38) as [->|?];
    [|destruct (N.eqb_spec c 160) as [->|?];
      [|destruct (N.eqb_spec c 60) as [->|?];
        [|destruct (N.eqb_spec c 62) as [->|?]]]].

Lemma escape_unit_injective c d x y :
  escape_unit c ++ x = escape_unit d ++ y -> c = d /\ x = y.
Proof.
  unit_cases c; unit_cases d; cbn [app js map String.list_ascii_of_string N_of_ascii];
    intros H; inversion H; subst; try (split; reflexivity); try congruence.
Qed.

Lemma escapeHtml_injective s : forall t, escapeHtml s = escapeHtml t -> s = t.
Proof.
  unfold escapeHtml. induction s as [|c s IH]; intros [|d t]; cbn [flat_map].
  - reflexivity.
  - unit_cases d; discriminate.
  - unit_cases c; discriminate.
  - intros H. apply escape_unit_injective in H as [-> H]. f_equal. apply IH; exact H.
Qed.

Lemma escape_unit_plain c u :
  In u (escape_unit c) -> u <> 60%N /\ u <> 62%N /\ u <> 160%N.
Proof.
  unit_cases c; cbn; intros H;
    repeat (destruct H as [<-|H]; [repeat split; congruence|]); destruct H.
Qed.

(** X14. The markup [escapeHtml] gives determines the text, and it holds no
    less-than sign, no greater-than sign and no no-break space; single and
    double quotes of the text are still in it. *)
Theorem X14_escaped_text :
  (forall s t, escapeHtml s = escapeHtml t -> s = t)
  /\ (forall s u, In u (escapeHtml s) -> u <> 60%N /\ u <> 62%N /\ u <> 160%N)
  /\ (forall s u, (u = 34%N \/ u = 39%N) -> In u s -> In u (escapeHtml s)).
Proof.
  split; [exact escapeHtml_injective|]. split.
  - intros s u H. unfold escapeHtml in H. apply in_flat_map in H as (c & _ & H).
    exact (escape_unit_plain c u H).
  - intros s u Hu Hin. unfold escapeHtml. apply in_flat_map. exists u. split; [exact Hin|].
    destruct Hu as [->| ->]; left; reflexivity.
Qed.

End Escaping.

(** ** The layout of the diagram *)

Section Layout.
Import Diagram.

Lemma mod3_cases i : (i mod 3 = 0 \/ i mod 3 = 1 \/ i mod 3 = 2)%N.
Proof.
  assert (H : (i mod 3 < 3)%N) by (apply N.mod_lt; discriminate).
  revert H. generalize (i mod 3)%N. intros m H. lia.
Qed.

(** X15. The boxes of the diagram never overlap sideways: every box lies
    within the width of the drawing, and two tables of the same row of
    three are at least fifty units apart. *)
Theorem X15_boxes_side_by_side :
  (forall tables index, (index < tables)%N ->
     (table_x index + table_width <= svg_width tables)%N)
  /\ (forall i j, i <> j -> (i / 3 = j / 3)%N ->
        (table_x i + table_width + 50 <= table_x j)%N
        \/ (table_x j + table_width + 50 <= table_x i)%N).
Proof.
  unfold table_x, table_width, svg_width. split.
  - intros tables index _. pose proof (mod3_cases index) as Hm.
    pose proof (N.le_max_l 800 (tables * 150)) as Hw.
    destruct Hm as [-> | [-> | ->]]; (eapply N.le_trans; [|exact Hw]);
      apply N.leb_le; reflexivity.
  - intros i j Hij Hrow.
    pose proof (N.div_mod i 3). pose proof (N.div_mod j 3).
    pose proof (mod3_cases i). pose proof (mod3_cases j).
    assert (Hne : (i mod 3 <> j mod 3)%N) by lia.
    destruct (mod3_cases i) as [Hi | [Hi | Hi]], (mod3_cases j) as [Hj | [Hj | Hj]];
      rewrite Hi, Hj in *; try (contradiction Hne; reflexivity);
      [left | left | right | left | right | right]; apply N.leb_le; reflexivity.
Qed.

(** X16. A box with at most six columns ends above the boxes of the next
    row and within the height of the drawing; a box with seven columns or
    more reaches into the box three places further. The end of a
    relationship line lies within the box of its table exactly when the
    table has a column. *)
Theorem X16_boxes_row_by_row :
  (forall i j columns, (i / 3 < j / 3)%N -> (columns <= 6)%N ->
     (table_y i + table_height columns <= table_y j)%N)
  /\ (forall tables i columns, (i < tables)%N -> (columns <= 6)%N ->
        (table_y i + table_height columns <= svg_height tables)%N)
  /\ (forall i columns, (7 <= columns)%N ->
        table_x (i + 3) = table_x i
        /\ (table_y (i + 3) < table_y i + table_height columns)%N)
  /\ (forall i columns,
        (table_x i <= anchor_x i <= table_x i + table_width)%N
        /\ ((anchor_y i <= table_y i + table_height columns)%N <-> (1 <= columns)%N)).
Proof.
  unfold anchor_x, anchor_y, table_x, table_y, table_height, table_width, svg_height.
  split; [|split; [|split]].
  - intros i j columns Hrow Hc. nia.
  - intros tables i columns Hi Hc.
    assert (Hrow : (i / 3 < (tables + 2) / 3)%N).
    { replace (tables + 2)%N with ((tables - 1) + 1 * 3)%N by lia.
      rewrite N.div_add by discriminate.
      assert ((i / 3 <= (tables - 1) / 3)%N) by (apply N.Div0.div_le_mono; lia).
      lia. }
    pose proof (N.le_max_r 600 ((tables + 2) / 3 * 250)) as Hmax.
    revert Hrow Hmax. generalize (N.max 600 ((tables + 2) / 3 * 250)).
    generalize ((tables + 2) / 3)%N. generalize (i / 3)%N. intros a b m Hrow Hmax. lia.
  - intros i columns Hc.
    replace (i + 3)%N with (i + 1 * 3)%N by lia.
    rewrite N.Div0.mod_add, N.div_add by lia. split; [reflexivity | lia].
  - intros i columns. generalize (i mod 3)%N (i / 3)%N. intros m d.
    split; [lia|]. split; lia.
Qed.

End Layout.

(** ** The theme *)

Section Themes.
Import Theme.
Variable has_hook : bool.

Lemma or_light_light_or_dark v :
  v = Some (js "light") \/ v = Some (js "dark") -> or_light v = match v with Some t => t | None => [] end.
Proof. intros [->| ->]; reflexivity. Qed.

(** X17. After [toggleTheme] the page is light or dark, the stored theme is
    the theme of the page, and the editor is dark exactly when the page is.
    Toggling twice gives back the theme of a page that was light or dark,
    and [applyTheme], as run when the page is loaded again, sets the page to
    the theme the last toggle stored. *)
Theorem X17_toggle_theme (p : Page) :
  let q := toggleTheme has_hook p in
  (q.(body_theme) = Some (js "light") \/ q.(body_theme) = Some (js "dark"))
  /\ q.(stored_theme) = q.(body_theme)
  /\ consistent q
  /\ (p.(body_theme) = Some (js "light") \/ p.(body_theme) = Some (js "dark") ->
      (toggleTheme has_hook q).(body_theme) = p.(body_theme))
  /\ (applyTheme has_hook q).(body_theme) = q.(body_theme)
  /\ (init_theme has_hook q).(body_theme) = q.(body_theme).
Proof.
  cbv zeta. unfold toggleTheme, applyTheme, init_theme, consistent.
  cbn [body_theme stored_theme editor_theme icon_theme].
  destruct (str_eqb (or_light (body_theme p)) (js "light")) eqn:E.
  - repeat split; auto; try discriminate.
    intros [H|H]; rewrite H in E |- *; [reflexivity | discriminate E].
  - repeat split; auto; try discriminate.
    intros [H|H]; rewrite H in E |- *; [discriminate E | reflexivity].
Qed.

(** X18. Loading the page does not set the theme of the editor: after
    [init] the editor has the dark theme [monokai] whatever theme was
    stored, so editor and page agree only when the stored theme is
    [dark]. *)
Theorem X18_editor_theme_after_load (p : Page) :
  (init_theme has_hook p).(editor_theme) = js "monokai"
  /\ (applyTheme has_hook p).(editor_theme) = p.(editor_theme)
  /\ (consistent (init_theme has_hook p) <-> p.(stored_theme) = Some (js "dark")).
Proof.
  unfold init_theme, applyTheme, consistent.
  cbn [body_theme stored_theme editor_theme icon_theme].
  split; [reflexivity|]. split; [reflexivity|].
  destruct (stored_theme p) as [[|c s]|] eqn:E; cbn [or_light].
  - split; [intros [H _]; discriminate (H eq_refl) | discriminate].
  - split.
    + intros [H _]. exact (H eq_refl).
    + intros H. split; auto.
  - split; [intros [H _]; discriminate (H eq_refl) | discriminate].
Qed.

End Themes.

(** ** The further properties on the small platform *)

Section Instances.
Import Toy Cases Logic.

Lemma X1_question_leaves_editor_and_settings_witness :
  settings (fst (executeNLQuery changed_repair)) = settings changed_repair
  /\ nlInput (fst (executeNLQuery changed_repair)) = nlInput changed_repair
  /\ sqlEditor (fst (executeNLQuery changed_repair)) = sqlEditor changed_repair
  /\ sqlResults (fst (executeNLQuery changed_repair)) = sqlResults changed_repair.
Proof.
  apply (X1_question_leaves_editor_and_settings (P:=toy) changed_repair
           (fst (executeNLQuery changed_repair)) (snd (executeNLQuery changed_repair))).
  vm_compute; reflexivity.
Defined.

Lemma X2_editor_run_stays_local_witness :
  snd (runSQL two_statements) = Return tt
  /\ net (fst (runSQL two_statements)) = net two_statements
  /\ queryHistory (fst (runSQL two_statements)) = queryHistory two_statements.
Proof.
  destruct (X2_editor_run_stays_local (P:=toy) two_statements
              (fst (runSQL two_statements)) (snd (runSQL two_statements)))
    as (Ho & _ & Hn & _ & _ & _ & Hh).
  - vm_compute; reflexivity.
  - split; [exact Ho|]. split; [exact Hn | exact Hh].
Defined.

Lemma X3_requests_follow_settings_witness :
  (exists evs,
     trace (fst (executeNLQuery changed_repair)) = trace changed_repair ++ evs
     /\ forall r, In (EvFetch r) evs ->
          authorization r = Some (js "Bearer " ++ apiKey (settings changed_repair)))
  /\ request_of (mkSettings (js "gemini") (js "first") [] (js "gemini-pro") []
                            (js "https://proxy.example/v1")) (js "hello")
     = request_of (mkSettings (js "gemini") (js "second") [] (js "gemini-pro") []
                              (js "https://proxy.example/v1")) (js "hello").
Proof.
  split.
  - destruct (proj1 (X3_requests_follow_settings (P:=toy)) changed_repair
                (fst (executeNLQuery changed_repair)) (snd (executeNLQuery changed_repair)))
      as (evs & Ht & H).
    + vm_compute; reflexivity.
    + exists evs. split; [exact Ht|]. intros r Hin.
      apply (proj2 (proj2 (H r Hin))). vm_compute; discriminate.
  - apply (proj2 (X3_requests_follow_settings (P:=toy))). discriminate.
Defined.

Lemma X4_unknown_provider_no_network_witness :
  net (fst (executeNLQuery other_provider)) = net other_provider
  /\ exists a1,
       executeNLQuery other_provider
       = (set_nlResults [AlertError (js "Error: Unknown LLM provider")] a1, Return tt).
Proof.
  split.
  - apply (proj1 (X4_unknown_provider_no_network (P:=toy)) other_provider
             (fst (executeNLQuery other_provider)) (snd (executeNLQuery other_provider))).
    + unfold unknown_provider; split; [|split]; vm_compute; discriminate.
    + vm_compute; reflexivity.
  - eexists. eapply (proj2 (X4_unknown_provider_no_network (P:=toy)) other_provider).
    + unfold unknown_provider; split; [|split]; vm_compute; discriminate.
    + unfold ready; split; [|split]; vm_compute; discriminate.
    + vm_compute; reflexivity.
Defined.

Lemma X5_question_run_always_ends_witness :
  ~ In Spinner (nlResults (fst (executeNLQuery changed_repair))).
Proof.
  apply (proj2 (X5_question_run_always_ends (P:=toy) changed_repair)).
  unfold ready; split; [|split]; vm_compute; discriminate.
Defined.

Lemma X6_history_newest_first_at_most_ten_witness :
  length (queryHistory (fst (executeNLQuery changed_repair))) <= 10.
Proof.
  apply (proj2 (X6_history_newest_first_at_most_ten (P:=toy) changed_repair
                  (fst (executeNLQuery changed_repair)) (snd (executeNLQuery changed_repair))
                  ltac:(vm_compute; reflexivity))).
  simpl; lia.
Defined.

Lemma X7_failure_before_execution_witness :
  (exists a1 e,
     executeNLQuery (P:=damaged) offline
     = (set_nlResults [AlertError (js "Error: " ++ e)] a1, Return tt))
  /\ (exists a2 e,
        executeNLQuery (P:=toy) offline
        = (set_nlResults [AlertError (js "Error: " ++ e)] a2, Return tt)).
Proof.
  split.
  - edestruct (proj1 (X7_failure_before_execution (P:=damaged)) offline) as (Hrun & _).
    + unfold ready; split; [|split]; vm_compute; discriminate.
    + vm_compute; reflexivity.
    + eexists; eexists; exact Hrun.
  - edestruct (proj2 (X7_failure_before_execution (P:=toy)) offline) as (Hrun & _).
    + unfold ready; split; [|split]; vm_compute; discriminate.
    + vm_compute; reflexivity.
    + vm_compute; reflexivity.
    + eexists; eexists; exact Hrun.
Defined.

Lemma X8_editor_error_discards_results_witness :
  exists a',
    runSQL failing_editor = (a', Return tt)
    /\ sqlResults a' = [AlertError (js "SQL Error: " ++ js "no such table: missing")]
    /\ trace a' = trace failing_editor
                  ++ map EvExec ([js "SELECT 1"] ++ [js " SELECT * FROM missing"])
    /\ db a' = Some [js "users"].
Proof.
  apply (X8_editor_error_discards_results (P:=toy) failing_editor
           [js "users"] [js "SELECT 1"] [[one_row 1]] [js "users"]
           (js " SELECT * FROM missing") [js " SELECT 2"] [js "users"]
           (js "no such table: missing")).
  - reflexivity.
  - vm_compute; discriminate.
  - vm_compute; reflexivity.
  - apply (Chain_cons (P:=toy) [js "users"] [js "users"] [js "users"]
             (js "SELECT 1") [] [one_row 1] []);
      [vm_compute; reflexivity | exact (Chain_nil (P:=toy) [js "users"])].
  - vm_compute; reflexivity.
Defined.

Lemma X10_fence_left_only_without_block_witness :
  substring_of Clean.fence (Clean.cleanLLMResponse (js "```sql SELECT 1")).
Proof.
  apply (proj2 (X10_fence_left_only_without_block (js "```sql SELECT 1"))). split.
  - exists [], (js "sql SELECT 1"). reflexivity.
  - intros H. apply first_block_has_block in H. apply H. vm_compute; reflexivity.
Defined.

Lemma X11_statements_are_the_pieces_between_semicolons_witness :
  substring_of (js " SELECT 2") (js "SELECT 1; SELECT 2;")
  /\ ~ In 59%N (js " SELECT 2")
  /\ trim (js " SELECT 2") <> [].
Proof.
  apply (proj2 (X11_statements_are_the_pieces_between_semicolons (js "SELECT 1; SELECT 2;"))).
  right; left; reflexivity.
Defined.

Lemma X12_csv_field_injective_witness : js "a,b" = js "a," ++ js "b".
Proof.
  apply (proj1 X12_csv_field_injective (js "a,b") (js "a," ++ js "b")). reflexivity.
Defined.

Lemma X13_csv_line_determines_cells_witness :
  map (Csv.cell_text (P:=toy)) [VNull; VStr (js "a,b"); VNum 7%Z]
  = map (Csv.cell_text (P:=toy)) [VStr []; VStr (js "a,b"); VStr (js "7")].
Proof.
  apply (X13_csv_line_determines_cells (P:=toy)).
  - reflexivity.
  - vm_compute; reflexivity.
Defined.

Lemma X14_escaped_text_witness : In 39%N (escapeHtml (js "it's")).
Proof.
  apply (proj2 (proj2 X14_escaped_text) (js "it's") 39%N).
  - right; reflexivity.
  - right; right; left; reflexivity.
Defined.

Lemma X15_boxes_side_by_side_witness :
  (Diagram.table_x 3 + Diagram.table_width <= Diagram.svg_width 4)%N
  /\ ((Diagram.table_x 0 + Diagram.table_width + 50 <= Diagram.table_x 1)%N
      \/ (Diagram.table_x 1 + Diagram.table_width + 50 <= Diagram.table_x 0)%N).
Proof.
  split.
  - apply (proj1 X15_boxes_side_by_side 4%N 3%N). reflexivity.
  - apply (proj2 X15_boxes_side_by_side 0%N 1%N); [discriminate | reflexivity].
Defined.

Lemma X16_boxes_row_by_row_witness :
  (Diagram.table_y 0 + Diagram.table_height 6 <= Diagram.table_y 3)%N
  /\ (Diagram.table_y 3 + Diagram.table_height 6 <= Diagram.svg_height 4)%N
  /\ (Diagram.table_x (0 + 3) = Diagram.table_x 0
      /\ (Diagram.table_y (0 + 3) < Diagram.table_y 0 + Diagram.table_height 7)%N).
Proof.
  split; [|split].
  - apply (proj1 X16_boxes_row_by_row 0%N 3%N 6%N); [reflexivity | discriminate].
  - apply (proj1 (proj2 X16_boxes_row_by_row) 4%N 3%N 6%N); [reflexivity | discriminate].
  - apply (proj1 (proj2 (proj2 X16_boxes_row_by_row)) 0%N 7%N). discriminate.
Defined.

Lemma X17_toggle_theme_witness :
  Theme.body_theme (Theme.toggleTheme true (Theme.toggleTheme true dark_page))
  = Theme.body_theme dark_page.
Proof.
  apply (proj1 (proj2 (proj2 (proj2 (X17_toggle_theme true dark_page))))).
  right; reflexivity.
Defined.

Lemma X18_editor_theme_after_load_witness :
  Theme.consistent (Theme.init_theme true dark_page).
Proof.
  apply (proj2 (proj2 (proj2 (X18_editor_theme_after_load true dark_page)))).
  reflexivity.
Defined.

End Instances.
